(** * HugeCTR/include/gpu_resource.hpp

    A shallow embedding of [GPUResource] and [GPUResourceGroup]: the
    per-accelerator handle set, the bootstrap of the NCCL communicators
    (with and without [ENABLE_MPI]) and the two destructors.

    The native libraries (CUDA, cuBLAS, cuRAND, cuDNN, NCCL, MPI) are
    external.  Every call the code makes to them is recorded, in program
    order, in a trace; whether a checked call reports an error is decided
    by the host the program runs on.  C++ exceptions are an outcome of the
    computation, and the communicator array lives in an explicit heap so
    that the pointers handed to the resources alias the group's array. *)

From stdpp Require Import base list strings pretty.
From Stdlib Require Import ZArith Lia.

(** ** Native values *)

(** Opaque library handles ([cudaStream_t], [cublasHandle_t], ...). *)
Definition cudaStream_t := nat.
Definition cublasHandle_t := nat.
Definition curandGenerator_t := nat.
Definition cudnnHandle_t := nat.

(** [ncclComm_t] is a pointer type: [None] is the null communicator that
    value-initialisation ([new ncclComm_t[n]()]) leaves in a slot. *)
Abbreviation ncclComm_t := (option nat).

(** The collective-group identity token. *)
Definition ncclUniqueId := N.

Inductive curandRngType_t := CURAND_RNG_PSEUDO_DEFAULT.

(** [const ncclComm_t*]: null, or the address of slot [ofs] of the array
    allocated as block [blk]. *)
Inductive comm_ptr :=
| nullptr
| slot_ptr (blk ofs : nat).

(** Pointer arithmetic [p + i]. *)
Definition ptr_add (p : comm_ptr) (i : nat) : comm_ptr :=
  match p with
  | nullptr => nullptr
  | slot_ptr b o => slot_ptr b (o + i)
  end.

(** ** Calls into the outside world *)

Inductive Call :=
| thread_pool_create (nThreads : nat)
| thread_set_affinity (thread : nat)
| cudaGetDeviceCount
| MPI_Comm_rank
| MPI_Comm_size
| ncclGetUniqueId
| MPI_Bcast (buffer : ncclUniqueId) (root : Z)
| ncclGroupStart
| ncclGroupEnd
| cudaSetDevice (dev : Z)
| ncclCommInitRank (comm : comm_ptr) (nranks : Z) (commId : ncclUniqueId) (rank : Z)
| ncclCommInitAll (comm : comm_ptr) (ndev : nat) (devlist : list Z)
| CudaDeviceContext_enter (dev : Z)
| CudaDeviceContext_exit
| cublasCreate
| curandCreateGenerator (rng : curandRngType_t)
| cudnnCreate
| cudaStreamCreate
| cublasDestroy (h : cublasHandle_t)
| curandDestroyGenerator (g : curandGenerator_t)
| cudnnDestroy (h : cudnnHandle_t)
| cudaStreamDestroy (s : cudaStream_t)
| ncclCommDestroy (c : ncclComm_t).

(** The only [Error_t] enumerator this header names. *)
Inductive Error_t := WrongInput.

(** What the code throws: [CK_THROW_(code, msg)], or one of the
    [CK_CUDA_THROW_], [CK_NCCL_THROW_], ... wrappers around a call that
    reported an error.  Both are [std::runtime_error]s. *)
Inductive runtime_error :=
| ck_throw (code : Error_t) (msg : string)
| ck_native (c : Call).

(** One entry of the trace: a call, or a line written to [std::cerr]. *)
Inductive Event :=
| call (c : Call)
| cerr (what : runtime_error).

(** ** The host and the state of the process *)

Record Host := {
  visible_devices : Z;                 (* what cudaGetDeviceCount stores *)
  fails : list Event -> Call -> bool;  (* does this checked call report an error *)
  unique_id : ncclUniqueId;            (* what ncclGetUniqueId stores *)
  uninit_id : ncclUniqueId;            (* content of the uninitialised local [nid] *)
  bcast_payload : ncclUniqueId;        (* what MPI_Bcast delivers to a non-root rank *)
  mpi_rank : Z;
  mpi_size : Z
}.

Record World := {
  host : Host;
  trace : list Event;
  heap : list (list ncclComm_t);
  next_id : nat
}.

Definition logs (evs : list Event) (w : World) : World :=
  {| host := host w; trace := trace w ++ evs; heap := heap w; next_id := next_id w |}.

Definition log (ev : Event) (w : World) : World := logs [ev] w.

Definition set_heap (h : list (list ncclComm_t)) (w : World) : World :=
  {| host := host w; trace := trace w; heap := h; next_id := next_id w |}.

Definition bump (w : World) : World :=
  {| host := host w; trace := trace w; heap := heap w; next_id := S (next_id w) |}.

(** ** Computations: state, exceptions, undefined behaviour *)

Inductive Outcome (A : Type) :=
| Normal (a : A)
| Thrown (e : runtime_error)
| Undefined.
Arguments Normal {A} a.
Arguments Thrown {A} e.
Arguments Undefined {A}.

Definition M (A : Type) : Type := World -> Outcome A * World.

Definition ret {A} (a : A) : M A := fun w => (Normal a, w).

Definition bind {A B} (m : M A) (f : A -> M B) : M B :=
  fun w =>
    match m w with
    | (Normal a, w1) => f a w1
    | (Thrown e, w1) => (Thrown e, w1)
    | (Undefined, w1) => (Undefined, w1)
    end.

Declare Scope m_scope.
Delimit Scope m_scope with M.
Notation "x <- m ;; k" := (bind m (fun x => k))
  (at level 100, m at next level, right associativity, only parsing) : m_scope.
Notation "m ;; k" := (bind m (fun _ => k))
  (at level 100, right associativity, only parsing) : m_scope.
Open Scope m_scope.

Definition throw {A} (e : runtime_error) : M A := fun w => (Thrown e, w).
Definition undefined {A} : M A := fun w => (Undefined, w).

(** [try { m } catch (const std::runtime_error& e) { h e }] *)
Definition try_catch (m : M unit) (h : runtime_error -> M unit) : M unit :=
  fun w =>
    match m w with
    | (Thrown e, w1) => h e w1
    | r => r
    end.

(** A scope whose exit action runs on every way out (a guard object). *)
Definition scoped {A} (m : M A) (release : World -> World) : M A :=
  fun w => let (r, w1) := m w in (r, release w1).

Definition when (b : bool) (m : M unit) : M unit := if b then m else ret tt.

(** [for (i = lo; ...; i++)] running [count] iterations over a loop state. *)
Fixpoint for_loop {St} (count i : nat) (body : nat -> St -> M St) (s : St) : M St :=
  match count with
  | 0 => ret s
  | S k => s' <- body i s ;; for_loop k (S i) body s'
  end.

(** [for (x : l)] *)
Fixpoint for_each {A} (l : list A) (body : A -> M unit) : M unit :=
  match l with
  | [] => ret tt
  | x :: l' => body x ;; for_each l' body
  end.

(** A call whose status is not inspected. *)
Definition emit (c : Call) : M unit := fun w => (Normal tt, log (call c) w).

(** A call under one of the [CK_*_THROW_] wrappers. *)
Definition checked (c : Call) : M unit :=
  fun w =>
    if fails (host w) (trace w) c
    then (Thrown (ck_native c), log (call c) w)
    else (Normal tt, log (call c) w).

Definition fresh : M nat := fun w => (Normal (next_id w), bump w).

(** A checked call that stores a new handle through its out-parameter. *)
Definition create (c : Call) : M nat := checked c ;; fresh.

Definition ask {A} (f : Host -> A) : M A := fun w => (Normal (f (host w)), w).

(** ** The communicator array *)

(** [new ncclComm_t[n]()]: a fresh block of [n] null communicators. *)
Definition new_comm_array (n : nat) : M comm_ptr :=
  fun w => (Normal (slot_ptr (length (heap w)) 0),
            set_heap (heap w ++ [replicate n None]) w).

Definition load (p : comm_ptr) : M ncclComm_t :=
  fun w =>
    match p with
    | nullptr => (Undefined, w)
    | slot_ptr b o =>
        match heap w !! b ≫= (fun blk => blk !! o) with
        | Some c => (Normal c, w)
        | None => (Undefined, w)
        end
    end.

Definition store (p : comm_ptr) (c : ncclComm_t) : M unit :=
  fun w =>
    match p with
    | nullptr => (Undefined, w)
    | slot_ptr b o =>
        match heap w !! b with
        | Some blk =>
            if decide (o < length blk)
            then (Normal tt, set_heap (<[b := <[o := c]> blk]> (heap w)) w)
            else (Undefined, w)
        | None => (Undefined, w)
        end
    end.

(** A library call that writes a new communicator into [*p]. *)
Definition init_comm (p : comm_ptr) : M unit :=
  c <- fresh ;; store p (Some c).

(** [ncclCommInitRank(p, nranks, id, rank)] and
    [ncclCommInitAll(p, ndev, devlist)], both under [CK_NCCL_THROW_]. *)
Definition nccl_comm_init_rank (p : comm_ptr) (nranks : Z) (id : ncclUniqueId)
    (rank : Z) : M unit :=
  checked (ncclCommInitRank p nranks id rank) ;; init_comm p.

Definition nccl_comm_init_all (p : comm_ptr) (ndev : nat) (devlist : list Z) : M unit :=
  checked (ncclCommInitAll p ndev devlist) ;;
  for_loop ndev 0 (fun i _ => init_comm (ptr_add p i)) tt.

(** [MPI_Bcast(&buf, sizeof buf, MPI_BYTE, root, MPI_COMM_WORLD)] under
    [CK_MPI_THROW_]: the root keeps its buffer, every other rank receives. *)
Definition mpi_bcast (buf : ncclUniqueId) (root : Z) : M ncclUniqueId :=
  checked (MPI_Bcast buf root) ;;
  r <- ask mpi_rank ;;
  if (r =? root)%Z then ret buf else ask bcast_payload.

(** Modelled from the spec: [CudaDeviceContext] of utils.hpp, a scoped
    guard that pins the following calls to one accelerator and reverts on
    scope exit, whichever way the scope is left. *)
Definition CudaDeviceContext {A} (device : Z) (body : M A) : M A :=
  scoped (emit (CudaDeviceContext_enter device) ;; body)
         (log (call CudaDeviceContext_exit)).

(** Modelled from the spec: the worker pool ([ctpl::thread_pool] of
    ctpl_stl.h), a host-side collaborator sized by the local accelerator
    count; its creation is not among the fallible steps. *)
Definition thread_pool (nThreads : nat) : M unit := emit (thread_pool_create nThreads).

(** Modelled from the spec: [set_affinity(train_thread_pool.get_thread(i),
    {}, true)] of utils.hpp, which ties worker [i] to its accelerator's CPU
    locality; it is not among the fallible steps. *)
Definition set_affinity (thread : nat) : M unit := emit (thread_set_affinity thread).

(** [cudaGetDeviceCount(&dev_count)]; the status it returns is dropped. *)
Definition cuda_get_device_count : M Z := emit cudaGetDeviceCount ;; ask visible_devices.

(** ** class GPUResource *)

Record GPUResource := {
  stream_ : cudaStream_t;
  data_copy_stream_ : cudaStream_t * cudaStream_t;   (* cudaStream_t [2] *)
  cublas_handle_ : cublasHandle_t;
  curand_generator_ : curandGenerator_t;
  cudnn_handle_ : cudnnHandle_t;
  device_id_ : Z;
  comm_ : comm_ptr
}.

Definition GPUResource_ctor (device_id : Z) (comm : comm_ptr) : M GPUResource :=
  CudaDeviceContext device_id (
    cublas <- create cublasCreate ;;
    curand <- create (curandCreateGenerator CURAND_RNG_PSEUDO_DEFAULT) ;;
    cudnn <- create cudnnCreate ;;
    s <- create cudaStreamCreate ;;
    d0 <- create cudaStreamCreate ;;
    d1 <- create cudaStreamCreate ;;
    ret {| stream_ := s; data_copy_stream_ := (d0, d1); cublas_handle_ := cublas;
           curand_generator_ := curand; cudnn_handle_ := cudnn;
           device_id_ := device_id; comm_ := comm |}).

(** The [try] block of the destructor, and the destructor. *)
Definition GPUResource_teardown (this : GPUResource) : M unit :=
  CudaDeviceContext (device_id_ this) (
    checked (cublasDestroy (cublas_handle_ this)) ;;
    checked (curandDestroyGenerator (curand_generator_ this)) ;;
    checked (cudnnDestroy (cudnn_handle_ this)) ;;
    checked (cudaStreamDestroy (stream_ this)) ;;
    checked (cudaStreamDestroy (fst (data_copy_stream_ this))) ;;
    checked (cudaStreamDestroy (snd (data_copy_stream_ this)))).

(** [std::cerr << rt_err.what() << std::endl] *)
Definition report (rt_err : runtime_error) : M unit :=
  fun w => (Normal tt, log (cerr rt_err) w).

Definition GPUResource_dtor (this : GPUResource) : M unit :=
  try_catch (GPUResource_teardown this) report.

Definition get_device_id (this : GPUResource) : Z := device_id_ this.
Definition get_stream (this : GPUResource) : cudaStream_t := stream_ this.
Definition get_data_copy_stream (this : GPUResource) (id : Z) : cudaStream_t :=
  fst (data_copy_stream_ this).
Definition get_cublas_handle (this : GPUResource) := cublas_handle_ this.
Definition get_curand_generator (this : GPUResource) := curand_generator_ this.
Definition get_cudnn_handle (this : GPUResource) := cudnn_handle_ this.
Definition get_nccl_ptr (this : GPUResource) : comm_ptr := comm_ this.

(** ** The device map (device_map.hpp), consumed read-only *)

Record DeviceMap := {
  dm_device_list : list Z;           (* get_device_list() *)
  dm_global_id : Z -> Z;             (* get_global_id(local_device_id) *)
  dm_local_id : Z -> Z;              (* get_local_id(global_id) *)
  dm_local_device_id : Z -> Z;       (* get_local_device_id(global_id) *)
  dm_size : Z;                       (* size() *)
  dm_num_nodes : Z;                  (* num_nodes() *)
  dm_pid : Z -> Z                    (* get_pid(global_id) *)
}.

(** ** class GPUResourceGroup *)

Record GPUResourceGroup := {
  comms_ : comm_ptr;                      (* std::unique_ptr<ncclComm_t[]> *)
  device_map_ : DeviceMap;
  gpu_resources_ : list GPUResource;
  train_thread_pool : nat;                (* number of worker threads *)
  results : nat                           (* number of future slots *)
}.

Definition set_comms (p : comm_ptr) (this : GPUResourceGroup) : GPUResourceGroup :=
  {| comms_ := p; device_map_ := device_map_ this;
     gpu_resources_ := gpu_resources_ this;
     train_thread_pool := train_thread_pool this; results := results this |}.

Definition set_gpu_resources (rs : list GPUResource) (this : GPUResourceGroup) :
    GPUResourceGroup :=
  {| comms_ := comms_ this; device_map_ := device_map_ this; gpu_resources_ := rs;
     train_thread_pool := train_thread_pool this; results := results this |}.

Definition size (this : GPUResourceGroup) : nat :=
  length (dm_device_list (device_map_ this)).
Definition empty (this : GPUResourceGroup) : bool := size this =? 0.

Definition get_device_list (this : GPUResourceGroup) := dm_device_list (device_map_ this).
Definition get_global_id (this : GPUResourceGroup) (local_device_id : Z) : Z :=
  dm_global_id (device_map_ this) local_device_id.
Definition get_local_id (this : GPUResourceGroup) (global_id : Z) : Z :=
  dm_local_id (device_map_ this) global_id.
Definition get_local_device_id (this : GPUResourceGroup) (global_id : Z) : Z :=
  dm_local_device_id (device_map_ this) global_id.
Definition get_total_gpu_count (this : GPUResourceGroup) : Z := dm_size (device_map_ this).
Definition get_node_count (this : GPUResourceGroup) : Z := dm_num_nodes (device_map_ this).
Definition get_pid (this : GPUResourceGroup) (global_id : Z) : Z :=
  dm_pid (device_map_ this) global_id.

(** [std::to_string(int)] *)
Definition to_string (n : Z) : string := pretty n.

(** The [ENABLE_MPI] branch of the constructor (lines 144-158), with the
    [total_gpu_count] it names as an argument. *)
Definition bootstrap_mpi (comms : comm_ptr) (device_map : DeviceMap)
    (total_gpu_count : Z) : M unit :=
  let device_list := dm_device_list device_map in
  let local_gpu_count := length device_list in
  checked MPI_Comm_rank ;;
  my_rank <- ask mpi_rank ;;
  checked MPI_Comm_size ;;
  n_ranks <- ask mpi_size ;;
  nid <- ask uninit_id ;;
  nid <- (if (my_rank =? 0)%Z then checked ncclGetUniqueId ;; ask unique_id
          else ret nid) ;;
  nid <- mpi_bcast nid 0 ;;
  checked ncclGroupStart ;;
  for_loop local_gpu_count 0 (fun i _ =>
    match device_list !! i with
    | Some dev =>
        checked (cudaSetDevice dev) ;;
        nccl_comm_init_rank (ptr_add comms i) total_gpu_count nid
                            (dm_global_id device_map dev)
    | None => undefined
    end) tt ;;
  checked ncclGroupEnd.

(** The branch without [ENABLE_MPI] (line 160). *)
Definition bootstrap_local (comms : comm_ptr) (device_map : DeviceMap) : M unit :=
  let device_list := dm_device_list device_map in
  nccl_comm_init_all comms (length device_list) device_list.

(** The member initialisers (lines 110-113) apart from the worker pool. *)
Definition new_group (device_map : DeviceMap) : GPUResourceGroup :=
  {| comms_ := nullptr; device_map_ := device_map; gpu_resources_ := [];
     train_thread_pool := length (dm_device_list device_map);
     results := length (dm_device_list device_map) |}.

(** Lines 112-138: the worker pool, thread affinity and the checks.
    Loop counters range over the list, whose length fits their type. *)
Definition ctor_validate (device_map : DeviceMap) (this : GPUResourceGroup) : M unit :=
  thread_pool (length (dm_device_list device_map)) ;;
  for_loop (length (dm_device_list device_map)) 0 (fun i _ => set_affinity i) tt ;;
  let device_list := dm_device_list device_map in
  let local_gpu_count := length device_list in
  when (local_gpu_count =? 0)
    (throw (ck_throw WrongInput "Empty device_list")) ;;
  when (negb (local_gpu_count =? size this))
    (throw (ck_throw WrongInput "local_gpu_count != size()")) ;;
  dev_count <- cuda_get_device_count ;;
  for_each device_list (fun dev =>
    when (dev >=? dev_count)%Z
      (throw (ck_throw WrongInput ("Invalid device id: " +:+ to_string dev)))) ;;
  when (negb (length (dm_device_list device_map) =? local_gpu_count))
    (throw (ck_throw WrongInput
              "device_map->get_device_list().size() != local_gpu_count")).

(** The [ENABLE_MPI] branch names [total_gpu_count] on line 155, and the
    file declares no such name: line 139,
    [// int total_gpu_count = get_total_gpu_count();], is a comment.  As
    written the branch does not compile, and [bootstrap_mpi] above is the
    branch with the name left open.  So that statements can range over both
    settings of the switch, the constructor closes the name with the value
    of the commented-out line; this is a repair of the source, not a reading
    of it, and what the branch passes as the count is stated on
    [bootstrap_mpi], for every value of the name. *)
Definition total_gpu_count (this : GPUResourceGroup) : Z := get_total_gpu_count this.

(** Lines 143-161. *)
Definition ctor_bootstrap (ENABLE_MPI : bool) (device_map : DeviceMap)
    (this : GPUResourceGroup) : M unit :=
  if ENABLE_MPI
  then bootstrap_mpi (comms_ this) device_map (total_gpu_count this)
  else bootstrap_local (comms_ this) device_map.

(** Lines 163-165: one [GPUResource] per local accelerator, appended to
    the vector. *)
Definition ctor_build_resources (device_map : DeviceMap) (this : GPUResourceGroup) :
    M (list GPUResource) :=
  let device_list := dm_device_list device_map in
  let local_gpu_count := length device_list in
  for_loop local_gpu_count 0 (fun i gpu_resources =>
    match device_list !! i with
    | Some dev =>
        r <- GPUResource_ctor dev (ptr_add (comms_ this) i) ;;
        ret (gpu_resources ++ [r])
    | None => undefined
    end) (gpu_resources_ this).

(** The body of the constructor.  [ENABLE_MPI] is the preprocessor switch.
    A run ends at the first exception; the release of the members built by
    then, which stack unwinding performs, is not part of the body: it is in
    [GPUResourceGroup_ctor_unwinding] below. *)
Definition GPUResourceGroup_ctor (ENABLE_MPI : bool) (device_map : DeviceMap) :
    M GPUResourceGroup :=
  let this := new_group device_map in
  ctor_validate device_map this ;;
  comms <- new_comm_array (length (dm_device_list device_map)) ;;
  let this := set_comms comms this in
  ctor_bootstrap ENABLE_MPI device_map this ;;
  rs <- ctor_build_resources device_map this ;;
  ret (set_gpu_resources rs this).

(** [int] to [size_t], and [std::vector::operator[]], which does not check
    its index: outside the vector there is no value. *)
Definition size_t_of_int (idx : Z) : Z := (idx mod 2 ^ 64)%Z.

Definition vector_at {A} (v : list A) (n : Z) : option A :=
  if decide (0 <= n < Z.of_nat (length v))%Z then v !! Z.to_nat n else None.

Definition operator_index (this : GPUResourceGroup) (idx : Z) : option GPUResource :=
  vector_at (gpu_resources_ this) (size_t_of_int idx).

(** The [try] block of the destructor (lines 181-185), and the destructor. *)
Definition GPUResourceGroup_teardown (this : GPUResourceGroup) : M unit :=
  when (1 <? length (gpu_resources_ this))
    (for_loop (length (gpu_resources_ this)) 0 (fun i _ =>
       c <- load (ptr_add (comms_ this) i) ;;
       checked (ncclCommDestroy c)) tt).

Definition GPUResourceGroup_dtor (this : GPUResourceGroup) : M unit :=
  try_catch (GPUResourceGroup_teardown this) report.

(** [delete[]] on the array of a [std::unique_ptr<ncclComm_t[]>]: the
    block is gone, and no library call is made for the communicators it
    held. *)
Definition delete_comm_array (p : comm_ptr) : M unit :=
  fun w =>
    match p with
    | nullptr => (Normal tt, w)
    | slot_ptr b _ => (Normal tt, set_heap (<[b := []]> (heap w)) w)
    end.

(** Destroying a group: the destructor body, then the members in reverse
    order of declaration.  The vector [gpu_resources_] drops its
    [shared_ptr]s; [released] lists the resources whose last reference that
    was, in the order in which the vector's destructor reaches them, and
    each of these runs [~GPUResource].  A resource that a caller still
    holds through the pointer [operator[]] returned is not among them.
    Last, [comms_] frees its array. *)
Definition destroy_GPUResourceGroup (this : GPUResourceGroup)
    (released : list GPUResource) : M unit :=
  GPUResourceGroup_dtor this ;;
  for_each released GPUResource_dtor ;;
  delete_comm_array (comms_ this).

(** The case in which the group is the only owner of every resource and the
    vector releases its elements front to back. *)
Definition delete_GPUResourceGroup (this : GPUResourceGroup) : M unit :=
  destroy_GPUResourceGroup this (gpu_resources_ this).

(** [for_loop] for a body that may throw inside a constructor: when the
    body throws, the loop state reached by then comes back with the
    exception, so that what was built can be released. *)
Fixpoint for_loop_upto {St} (count i : nat) (body : nat -> St -> M St) (s : St) :
    M (St * option runtime_error) :=
  match count with
  | 0 => ret (s, None)
  | S k =>
      fun w =>
        match body i s w with
        | (Normal s', w1) => for_loop_upto k (S i) body s' w1
        | (Thrown e, w1) => (Normal (s, Some e), w1)
        | (Undefined, w1) => (Undefined, w1)
        end
  end.

(** [m], with [cleanup] run before an exception that leaves [m] travels on
    (the destructor of an object built before [m]).  A destructor that
    throws during unwinding ends the process ([std::terminate]); no
    outcome is given to such a run. *)
Definition on_exception {A} (m : M A) (cleanup : M unit) : M A :=
  fun w =>
    match m w with
    | (Thrown e, w1) =>
        match cleanup w1 with
        | (Normal _, w2) => (Thrown e, w2)
        | (_, w2) => (Undefined, w2)
        end
    | r => r
    end.

(** The constructor with the stack unwinding that follows an exception
    leaving its body: the members built by then are destroyed in reverse
    order of declaration.  Until line 142 [comms_] is null and the vector is
    empty; from then on [comms_] frees its array; an exception in the loop
    of lines 163-165 first releases the resources the vector holds by then
    (nothing else refers to them yet), in the order [order] in which the
    vector's destructor reaches its elements.  The [GPUResource] whose
    constructor threw is not among them. *)
Definition GPUResourceGroup_ctor_unwinding (order : list GPUResource -> list GPUResource)
    (ENABLE_MPI : bool) (device_map : DeviceMap) : M GPUResourceGroup :=
  let device_list := dm_device_list device_map in
  let this := new_group device_map in
  ctor_validate device_map this ;;
  comms <- new_comm_array (length device_list) ;;
  let this := set_comms comms this in
  on_exception
    (ctor_bootstrap ENABLE_MPI device_map this ;;
     built <- for_loop_upto (length device_list) 0 (fun i gpu_resources =>
                match device_list !! i with
                | Some dev =>
                    r <- GPUResource_ctor dev (ptr_add (comms_ this) i) ;;
                    ret (gpu_resources ++ [r])
                | None => undefined
                end) (gpu_resources_ this) ;;
     match built with
     | (rs, None) => ret (set_gpu_resources rs this)
     | (rs, Some e) => for_each (order rs) GPUResource_dtor ;; throw e
     end)
    (delete_comm_array comms).

(** * Vocabulary of the statements *)

(** The events a computation adds to the trace of the world it starts in. *)
Definition events_of {A} (m : M A) (w : World) : list Event :=
  drop (length (trace w)) (trace (m w).2).

Definition affinity_events (i count : nat) : list Event :=
  map (fun k => call (thread_set_affinity k)) (seq i count).

(** The first identifier the range-for over the device list rejects. *)
Fixpoint first_invalid (dev_count : Z) (l : list Z) : option Z :=
  match l with
  | [] => None
  | dev :: l' => if (dev >=? dev_count)%Z then Some dev else first_invalid dev_count l'
  end.

Definition invalid_device_id (dev : Z) : runtime_error :=
  ck_throw WrongInput ("Invalid device id: " +:+ to_string dev).

(** What the checks add to the trace, and how they end, on a host that
    shows [visible] accelerators. *)
Definition validate_events (device_map : DeviceMap) : list Event :=
  let n := length (dm_device_list device_map) in
  call (thread_pool_create n) :: affinity_events 0 n
    ++ (if n =? 0 then [] else [call cudaGetDeviceCount]).

Definition validate_outcome (visible : Z) (device_map : DeviceMap) : Outcome unit :=
  if length (dm_device_list device_map) =? 0
  then Thrown (ck_throw WrongInput "Empty device_list")
  else match first_invalid visible (dm_device_list device_map) with
       | Some dev => Thrown (invalid_device_id dev)
       | None => Normal tt
       end.

(** The outcome is a library call that reported an error on this host. *)
Definition native_failure {A} (h : Host) (o : Outcome A) : Prop :=
  exists c hist, o = Thrown (ck_native c) /\ fails h hist c = true.

(** Block [b] has [n] slots, of which the first [filled] hold a
    communicator. *)
Definition block_filled (w : World) (b n filled : nat) : Prop :=
  exists blk, heap w !! b = Some blk /\ length blk = n /\
    forall k, k < filled -> exists c, blk !! k = Some (Some c).

(** The calls of the join loop from local index [i] on. *)
Fixpoint join_calls (comms : comm_ptr) (device_map : DeviceMap) (total : Z)
    (nid : ncclUniqueId) (i : nat) (l : list Z) : list Call :=
  match l with
  | [] => []
  | dev :: l' =>
      cudaSetDevice dev
        :: ncclCommInitRank (ptr_add comms i) total nid (dm_global_id device_map dev)
        :: join_calls comms device_map total nid (S i) l'
  end.

(** What a process hands to [MPI_Bcast], and what it holds afterwards. *)
Definition sent_id (h : Host) : ncclUniqueId :=
  if (mpi_rank h =? 0)%Z then unique_id h else uninit_id h.

Definition agreed_id (h : Host) : ncclUniqueId :=
  if (mpi_rank h =? 0)%Z then unique_id h else bcast_payload h.

Definition mpi_prologue (h : Host) : list Call :=
  [MPI_Comm_rank; MPI_Comm_size]
    ++ (if (mpi_rank h =? 0)%Z then [ncclGetUniqueId] else [])
    ++ [MPI_Bcast (sent_id h) 0; ncclGroupStart].

Definition mpi_bootstrap_calls (h : Host) (comms : comm_ptr) (device_map : DeviceMap)
    (total : Z) : list Call :=
  mpi_prologue h
    ++ join_calls comms device_map total (agreed_id h) 0 (dm_device_list device_map)
    ++ [ncclGroupEnd].

Definition bootstrap_calls (ENABLE_MPI : bool) (h : Host) (comms : comm_ptr)
    (device_map : DeviceMap) : list Call :=
  if ENABLE_MPI
  then mpi_bootstrap_calls h comms device_map (dm_size device_map)
  else [ncclCommInitAll comms (length (dm_device_list device_map))
          (dm_device_list device_map)].

(** The calls of [GPUResource]'s constructor. *)
Definition is_resource_call (c : Call) : bool :=
  match c with
  | CudaDeviceContext_enter _ | CudaDeviceContext_exit
  | cublasCreate | curandCreateGenerator _ | cudnnCreate | cudaStreamCreate => true
  | _ => false
  end.

(** The calls of the bootstrap of the communicators. *)
Definition is_collective_call (c : Call) : bool :=
  match c with
  | MPI_Comm_rank | MPI_Comm_size | ncclGetUniqueId | MPI_Bcast _ _
  | ncclGroupStart | ncclGroupEnd | cudaSetDevice _
  | ncclCommInitRank _ _ _ _ | ncclCommInitAll _ _ _ => true
  | _ => false
  end.

(** The calls that create a handle, a stream or a communicator. *)
Definition creates_native (c : Call) : bool :=
  match c with
  | cublasCreate | curandCreateGenerator _ | cudnnCreate | cudaStreamCreate
  | ncclCommInitRank _ _ _ _ | ncclCommInitAll _ _ _ => true
  | _ => false
  end.

Definition is_comm_destroy (c : Call) : bool :=
  match c with
  | ncclCommDestroy _ => true
  | _ => false
  end.

Definition on_call (p : Call -> bool) (ev : Event) : bool :=
  match ev with
  | call c => p c
  | cerr _ => false
  end.

(** What the loop of lines 163-165 has built: one resource per local index,
    carrying the device identifier and the slot address of that index. *)
Definition resources_for (device_map : DeviceMap) (comms : comm_ptr)
    (rs : list GPUResource) : Prop :=
  forall k r, rs !! k = Some r ->
    exists dev, dm_device_list device_map !! k = Some dev /\
      device_id_ r = dev /\ comm_ r = ptr_add comms k.

(** A run of the constructor that returned normally. *)
Definition constructed (mpi : bool) (device_map : DeviceMap) (w : World)
    (g : GPUResourceGroup) (w' : World) : Prop :=
  let comms := slot_ptr (length (heap w)) 0 in
  let n := length (dm_device_list device_map) in
  validate_outcome (visible_devices (host w)) device_map = Normal tt /\
  g = set_gpu_resources (gpu_resources_ g) (set_comms comms (new_group device_map)) /\
  host w' = host w /\
  exists w1 post,
    ctor_build_resources device_map (set_comms comms (new_group device_map)) w1
      = (Normal (gpu_resources_ g), w') /\
    trace w1 = trace w ++ validate_events device_map
                 ++ map call (bootstrap_calls mpi (host w) comms device_map) /\
    block_filled w1 (length (heap w)) n n /\
    heap w' = heap w1 /\
    trace w' = trace w1 ++ post /\
    Forall (fun ev => on_call is_resource_call ev = true) post /\
    length (gpu_resources_ g) = n /\
    resources_for device_map comms (gpu_resources_ g).

Definition INT_MAX : Z := 2 ^ 31 - 1.

Definition INT_MIN : Z := - 2 ^ 31.

Definition PTRDIFF_MAX : Z := 2 ^ 63 - 1.

(** The local list is not empty, every identifier is one of the host's
    visible accelerators, and local indices are [int]s. *)
Definition valid_device_map (h : Host) (device_map : DeviceMap) : Prop :=
  dm_device_list device_map <> [] /\
  Forall (fun dev => dev < visible_devices h)%Z (dm_device_list device_map) /\
  (Z.of_nat (length (dm_device_list device_map)) <= INT_MAX)%Z.

(** No checked call reports an error on this host. *)
Definition healthy (h : Host) : Prop := forall hist c, fails h hist c = false.

(** The hosts of one MPI job, by rank: each knows its rank and the size of
    the job, and what [MPI_Bcast] delivers from root 0 is the buffer that
    the process of rank 0 handed to it. *)
Definition mpi_job (hosts : list Host) : Prop :=
  forall r h, hosts !! r = Some h ->
    mpi_rank h = Z.of_nat r /\
    mpi_size h = Z.of_nat (length hosts) /\
    forall h0, hosts !! 0 = Some h0 -> bcast_payload h = sent_id h0.

(** The communicators the group's array holds for its resources:
    [comms_[0]], ..., [comms_[gpu_resources_.size() - 1]]. *)
Definition comm_slots (this : GPUResourceGroup) (w : World) : list ncclComm_t :=
  match comms_ this with
  | slot_ptr b o =>
      take (length (gpu_resources_ this)) (drop o (default [] (heap w !! b)))
  | nullptr => []
  end.

(** The class invariant the destructor relies on: the array [comms_] points
    to has a slot for every resource of the group. *)
Definition comms_allocated (this : GPUResourceGroup) (w : World) : Prop :=
  length (comm_slots this w) = length (gpu_resources_ this).

(** The communicators handed to [ncclCommDestroy], in call order. *)
Definition comm_destroys (evs : list Event) : list ncclComm_t :=
  omap (fun ev => match ev with
                  | call (ncclCommDestroy c) => Some c
                  | _ => None
                  end) evs.

Definition destroy_events (slots : list ncclComm_t) : list Event :=
  map (fun c => call (ncclCommDestroy c)) slots.

(** The state after [try { m } catch (...) { report }] given the run of [m]. *)
Definition caught (r : Outcome unit * World) : World :=
  match r with
  | (Thrown e, w1) => log (cerr e) w1
  | (_, w1) => w1
  end.

(** * Hosts and scenarios *)

Definition boot (h : Host) : World :=
  {| host := h; trace := []; heap := []; next_id := 0 |}.

Definition never_fails : list Event -> Call -> bool := fun _ _ => false.

Definition quiet_host (visible : Z) : Host :=
  {| visible_devices := visible; fails := never_fails; unique_id := 7%N;
     uninit_id := 0%N; bcast_payload := 7%N; mpi_rank := 0; mpi_size := 1 |}.

Definition two_gpu_map : DeviceMap :=
  {| dm_device_list := [0; 1]%Z; dm_global_id := fun d => d; dm_local_id := fun g => g;
     dm_local_device_id := fun g => g; dm_size := 2; dm_num_nodes := 1;
     dm_pid := fun _ => 0%Z |}.

(** The group and the state the scenario's constructor run ends in. *)
Definition two_gpu_group : GPUResourceGroup :=
  Eval vm_compute in
    match GPUResourceGroup_ctor false two_gpu_map (boot (quiet_host 4)) with
    | (Normal g, _) => g
    | _ => new_group two_gpu_map
    end.

Definition two_gpu_world : World :=
  Eval vm_compute in (GPUResourceGroup_ctor false two_gpu_map (boot (quiet_host 4))).2.

(** A job of two processes with one accelerator each. *)
Definition job_host (rank : Z) : Host :=
  {| visible_devices := 4; fails := never_fails; unique_id := (40 + Z.to_N rank)%N;
     uninit_id := 0%N; bcast_payload := 40%N; mpi_rank := rank; mpi_size := 2 |}.

Definition two_hosts : list Host := [job_host 0; job_host 1].

Definition rank1_map : DeviceMap :=
  {| dm_device_list := [0]%Z; dm_global_id := fun d => (d + 1)%Z;
     dm_local_id := fun g => (g - 1)%Z; dm_local_device_id := fun g => (g - 1)%Z;
     dm_size := 2; dm_num_nodes := 2; dm_pid := fun g => g |}.

(** The process of rank 1 with its one-slot communicator array allocated,
    as line 142 leaves it. *)
Definition rank1_world : World := (new_comm_array 1 (boot (job_host 1))).2.

(** A host on which every [ncclCommDestroy] reports an error, and the
    two-accelerator group built on it. *)
Definition flaky_host : Host :=
  {| visible_devices := 4; fails := fun _ c => is_comm_destroy c; unique_id := 7%N;
     uninit_id := 0%N; bcast_payload := 7%N; mpi_rank := 0; mpi_size := 1 |}.

Definition flaky_group : GPUResourceGroup :=
  Eval vm_compute in
    match GPUResourceGroup_ctor false two_gpu_map (boot flaky_host) with
    | (Normal g, _) => g
    | _ => new_group two_gpu_map
    end.

Definition flaky_world : World :=
  Eval vm_compute in (GPUResourceGroup_ctor false two_gpu_map (boot flaky_host)).2.

Definition empty_map : DeviceMap :=
  {| dm_device_list := []; dm_global_id := fun d => d; dm_local_id := fun g => g;
     dm_local_device_id := fun g => g; dm_size := 0; dm_num_nodes := 1;
     dm_pid := fun _ => 0%Z |}.

(** The scenario of the specification: local accelerator 5 on a host that
    shows 4. *)
Definition gpu5_map : DeviceMap :=
  {| dm_device_list := [5]%Z; dm_global_id := fun d => d; dm_local_id := fun g => g;
     dm_local_device_id := fun g => g; dm_size := 1; dm_num_nodes := 1;
     dm_pid := fun _ => 0%Z |}.

(** * Vocabulary of the further properties *)

(** The six acquisitions of [GPUResource]'s constructor (lines 55-60), and
    the six releases of its destructor (lines 73-78), in program order. *)
Definition creation_calls : list Call :=
  [cublasCreate; curandCreateGenerator CURAND_RNG_PSEUDO_DEFAULT; cudnnCreate;
   cudaStreamCreate; cudaStreamCreate; cudaStreamCreate].

Definition destroy_calls (r : GPUResource) : list Call :=
  [cublasDestroy (cublas_handle_ r); curandDestroyGenerator (curand_generator_ r);
   cudnnDestroy (cudnn_handle_ r); cudaStreamDestroy (stream_ r);
   cudaStreamDestroy (fst (data_copy_stream_ r));
   cudaStreamDestroy (snd (data_copy_stream_ r))].

(** Calls made inside the scope of a [CudaDeviceContext] guard. *)
Definition in_device_context (dev : Z) (calls : list Call) : list Event :=
  call (CudaDeviceContext_enter dev) :: map call calls ++ [call CudaDeviceContext_exit].

(** Checked calls made one after the other, starting on the trace [hist]:
    the calls that are made, and the call whose error ended the sequence,
    if one did.  Each call is judged by the host on the trace as it stands
    when the call is made, and the first call that reports an error is the
    last one made. *)
Fixpoint until_first_failure (h : Host) (hist : list Event) (calls : list Call) :
    list Call * option Call :=
  match calls with
  | [] => ([], None)
  | c :: calls' =>
      if fails h hist c then ([c], Some c)
      else let (made, err) := until_first_failure h (hist ++ [call c]) calls' in
           (c :: made, err)
  end.

(** How a computation ends after such a sequence. *)
Definition ended_by (err : option Call) : Outcome unit :=
  match err with
  | Some c => Thrown (ck_native c)
  | None => Normal tt
  end.

(** Every event a computation adds, from whatever state and however it
    ends, satisfies [P]. *)
Definition emits {A} (P : Event -> Prop) (m : M A) : Prop :=
  forall w, exists evs, trace (m w).2 = trace w ++ evs /\ Forall P evs.

(** No [ncclCommDestroy]. *)
Definition keeps_comms (ev : Event) : Prop := on_call is_comm_destroy ev = false.

(** A host on which [cudnnCreate] reports an error once more than ten
    events are on the trace: in a construction over two accelerators that is
    the one of the second resource. *)
Definition second_cudnn_host : Host :=
  {| visible_devices := 4;
     fails := fun hist c => match c with
                            | cudnnCreate => 10 <? length hist
                            | _ => false
                            end;
     unique_id := 7%N; uninit_id := 0%N; bcast_payload := 7%N;
     mpi_rank := 0; mpi_size := 1 |}.

Definition one_gpu_map : DeviceMap :=
  {| dm_device_list := [3]%Z; dm_global_id := fun d => 0%Z; dm_local_id := fun g => 0%Z;
     dm_local_device_id := fun g => 3%Z; dm_size := 1; dm_num_nodes := 1;
     dm_pid := fun _ => 0%Z |}.

Definition one_gpu_group : GPUResourceGroup :=
  Eval vm_compute in
    match GPUResourceGroup_ctor false one_gpu_map (boot (quiet_host 4)) with
    | (Normal g, _) => g
    | _ => new_group one_gpu_map
    end.

Definition one_gpu_world : World :=
  Eval vm_compute in (GPUResourceGroup_ctor false one_gpu_map (boot (quiet_host 4))).2.

(** Rank 0 of a job on which [ncclGetUniqueId] reports an error, with a
    one-slot communicator array allocated. *)
Definition no_unique_id_host : Host :=
  {| visible_devices := 4;
     fails := fun _ c => match c with ncclGetUniqueId => true | _ => false end;
     unique_id := 7%N; uninit_id := 0%N; bcast_payload := 7%N;
     mpi_rank := 0; mpi_size := 2 |}.

Definition no_unique_id_world : World := (new_comm_array 1 (boot no_unique_id_host)).2.

(** * Reasoning about runs *)

(** ** Worlds and traces *)

Lemma logs_nil w : logs [] w = w.
Proof. destruct w; unfold logs; simpl. by rewrite app_nil_r. Qed.

Lemma logs_logs evs1 evs2 w : logs evs2 (logs evs1 w) = logs (evs1 ++ evs2) w.
Proof. unfold logs; simpl. by rewrite app_assoc. Qed.

Lemma log_logs ev evs w : logs evs (log ev w) = logs (ev :: evs) w.
Proof. unfold log. by rewrite logs_logs. Qed.

Lemma events_of_app {A} (m : M A) w evs :
  trace (m w).2 = trace w ++ evs -> events_of m w = evs.
Proof. intros E. unfold events_of. rewrite E. apply drop_app_length. Qed.

(** ** The checks of the constructor *)

Lemma affinity_loop_run count : forall i w,
  for_loop count i (fun i _ => set_affinity i) tt w
  = (Normal tt, logs (affinity_events i count) w).
Proof.
  induction count as [|k IH]; intros i w; simpl.
  - unfold ret, affinity_events. simpl. by rewrite logs_nil.
  - unfold bind at 1. unfold set_affinity, emit. rewrite IH.
    unfold affinity_events. simpl. by rewrite log_logs.
Qed.

Lemma device_check_run dev_count l : forall w,
  for_each l (fun dev =>
    when (dev >=? dev_count)%Z
      (throw (ck_throw WrongInput ("Invalid device id: " +:+ to_string dev)))) w
  = (match first_invalid dev_count l with
     | Some dev => Thrown (invalid_device_id dev)
     | None => Normal tt
     end, w).
Proof.
  induction l as [|dev l IH]; intros w; simpl; [done|].
  unfold bind. destruct (dev >=? dev_count)%Z; simpl; [done|].
  apply IH.
Qed.

Lemma first_invalid_None dev_count l :
  first_invalid dev_count l = None <-> Forall (fun dev => dev < dev_count)%Z l.
Proof.
  induction l as [|dev l IH]; simpl.
  - split; [constructor|done].
  - destruct (Z.geb_spec dev dev_count) as [Hge|Hlt].
    + split; [done|]. intros H. inversion H; subst. lia.
    + rewrite IH. split; [by constructor|]. intros H. by inversion H.
Qed.

Lemma first_invalid_Some dev_count l dev :
  first_invalid dev_count l = Some dev ->
  dev ∈ l /\ (dev >= dev_count)%Z /\
  exists l1 l2, l = l1 ++ dev :: l2 /\ Forall (fun d => d < dev_count)%Z l1.
Proof.
  induction l as [|d l IH]; simpl; [done|].
  destruct (Z.geb_spec d dev_count) as [Hge|Hlt].
  - intros [= ->]. split; [left|]. split; [lia|].
    exists [], l. split; [done|constructor].
  - intros H. destruct (IH H) as (Hin & Hd & l1 & l2 & -> & Hall).
    split; [by right|]. split; [done|].
    exists (d :: l1), l2. split; [done|by constructor].
Qed.

Lemma size_new_group device_map :
  size (new_group device_map) = length (dm_device_list device_map).
Proof. reflexivity. Qed.

Lemma ctor_validate_run device_map w :
  ctor_validate device_map (new_group device_map) w
  = (validate_outcome (visible_devices (host w)) device_map,
     logs (validate_events device_map) w).
Proof.
  unfold ctor_validate, validate_outcome, validate_events.
  rewrite size_new_group, Nat.eqb_refl. simpl negb.
  unfold bind at 1. unfold thread_pool, emit.
  unfold bind at 1. rewrite affinity_loop_run, log_logs.
  unfold bind at 1.
  destruct (length (dm_device_list device_map) =? 0) eqn:Hn; simpl.
  { unfold throw. by rewrite app_nil_r. }
  unfold ret at 1. unfold bind at 1. simpl. unfold ret at 1.
  unfold bind at 1. unfold cuda_get_device_count, bind at 1, emit, ask.
  unfold bind at 1. rewrite device_check_run. simpl host.
  unfold log. rewrite logs_logs. simpl app.
  by destruct (first_invalid _ _).
Qed.

(** ** Loops and checked calls *)

Lemma for_loop_inv {St} (I : nat -> St -> World -> Prop)
    (F : Outcome St -> World -> Prop) (body : nat -> St -> M St) count :
  forall i s w,
    I i s w ->
    (forall j s1 w1, i <= j < i + count -> I j s1 w1 ->
       match body j s1 w1 with
       | (Normal s2, w2) => I (S j) s2 w2
       | (o, w2) => F o w2
       end) ->
    match for_loop count i body s w with
    | (Normal s', w') => I (i + count) s' w'
    | (o, w') => F o w'
    end.
Proof.
  induction count as [|k IH]; intros i s w HI Hbody; simpl.
  - unfold ret. by rewrite Nat.add_0_r.
  - unfold bind. pose proof (Hbody i s w ltac:(lia) HI) as H1.
    destruct (body i s w) as [[s2|e|] w2]; [|done..].
    replace (i + S k) with (S i + k) by lia.
    apply IH; [done|]. intros j s1 w1 Hj. apply Hbody. lia.
Qed.

Lemma checked_run c w :
  checked c w = (Normal tt, log (call c) w) /\ fails (host w) (trace w) c = false
  \/ checked c w = (Thrown (ck_native c), log (call c) w)
     /\ fails (host w) (trace w) c = true.
Proof. unfold checked. destruct (fails _ _ _); [right|left]; done. Qed.

Lemma bind_bind {A B C} (m : M A) (f : A -> M B) (g : B -> M C) w :
  bind (bind m f) g w = bind m (fun a => bind (f a) g) w.
Proof. unfold bind. by destruct (m w) as [[a|e|] w1]. Qed.

Lemma bind_ret {A B} (a : A) (f : A -> M B) w : bind (ret a) f w = f a w.
Proof. reflexivity. Qed.

Lemma bind_ask {A B} (g : Host -> A) (f : A -> M B) w :
  bind (ask g) f w = f (g (host w)) w.
Proof. reflexivity. Qed.

Lemma bind_checked_ok {B} c (f : unit -> M B) w :
  fails (host w) (trace w) c = false ->
  bind (checked c) f w = f tt (log (call c) w).
Proof. intros Hf. unfold bind, checked. by rewrite Hf. Qed.

Lemma bind_checked_fail {B} c (f : unit -> M B) w :
  fails (host w) (trace w) c = true ->
  bind (checked c) f w = (Thrown (ck_native c), log (call c) w).
Proof. intros Hf. unfold bind, checked. by rewrite Hf. Qed.

(** ** The heap *)

Lemma new_comm_array_filled n w :
  block_filled (new_comm_array n w).2 (length (heap w)) n 0.
Proof.
  exists (replicate n None). simpl. split; [|split].
  - by rewrite lookup_app_r, Nat.sub_diag.
  - apply length_replicate.
  - lia.
Qed.

Lemma init_comm_run w b n j :
  block_filled w b n j -> j < n ->
  exists w', init_comm (slot_ptr b j) w = (Normal tt, w') /\
    host w' = host w /\ trace w' = trace w /\ block_filled w' b n (S j).
Proof.
  intros (blk & Hb & Hlen & Hfill) Hj.
  unfold init_comm, bind, fresh, store. simpl. rewrite Hb.
  destruct (decide (j < length blk)) as [_|]; [|lia].
  eexists. split; [done|]. split; [done|]. split; [done|].
  exists (<[j := Some (next_id w)]> blk). simpl. split; [|split].
  - apply list_lookup_insert_eq. by eapply lookup_lt_Some.
  - by rewrite length_insert.
  - intros k Hk. destruct (decide (k = j)) as [->|Hne].
    + exists (next_id w). apply list_lookup_insert_eq. lia.
    + rewrite list_lookup_insert_ne by done. apply Hfill. lia.
Qed.

(** ** The bootstrap of the communicators *)

Lemma join_calls_app comms device_map total nid l1 l2 : forall i,
  join_calls comms device_map total nid i (l1 ++ l2)
  = join_calls comms device_map total nid i l1
      ++ join_calls comms device_map total nid (i + length l1) l2.
Proof.
  induction l1 as [|d l1 IH]; intros i; simpl.
  - by rewrite Nat.add_0_r.
  - rewrite IH. by replace (S i + length l1) with (i + S (length l1)) by lia.
Qed.

Lemma join_calls_take_S comms device_map total nid l j dev :
  l !! j = Some dev ->
  join_calls comms device_map total nid 0 (take (S j) l)
  = join_calls comms device_map total nid 0 (take j l)
      ++ [cudaSetDevice dev;
          ncclCommInitRank (ptr_add comms j) total nid (dm_global_id device_map dev)].
Proof.
  intros Hj. rewrite (take_S_r _ _ _ Hj), join_calls_app. simpl.
  rewrite length_take, Nat.min_l; [done|].
  apply lookup_lt_Some in Hj. lia.
Qed.

(** Discharges the branch in which a checked call reported an error. *)
Ltac native_fails :=
  match goal with
  | H : fails _ ?hist ?c = true |- native_failure _ _ =>
      exists c, hist; split; [reflexivity | exact H]
  end.

(** Brings the computation under the [match] into head form. *)
Ltac mnorm :=
  repeat first [rewrite bind_bind | rewrite bind_ret | rewrite bind_ask];
  simpl host.

(** Runs the next checked call of the computation under the [match]. *)
Ltac step_checked :=
  mnorm;
  match goal with
  | |- context [bind (checked ?c) ?k ?w] =>
      let Hf := fresh "Hf" in
      destruct (fails (host w) (trace w) c) eqn:Hf;
      [rewrite (bind_checked_fail c k w Hf); native_fails
      |rewrite (bind_checked_ok c k w Hf)]
  end.

Lemma join_loop_run b n device_map total nid w0 w pre :
  n = length (dm_device_list device_map) ->
  host w = host w0 ->
  trace w = trace w0 ++ map call pre ->
  block_filled w b n 0 ->
  match
    for_loop n 0 (fun i _ =>
      match dm_device_list device_map !! i with
      | Some dev =>
          checked (cudaSetDevice dev) ;;
          nccl_comm_init_rank (ptr_add (slot_ptr b 0) i) total nid
                              (dm_global_id device_map dev)
      | None => undefined
      end) tt w
  with
  | (Normal _, w') =>
      host w' = host w0 /\
      trace w' = trace w0
        ++ map call (pre ++ join_calls (slot_ptr b 0) device_map total nid 0
                              (dm_device_list device_map)) /\
      block_filled w' b n n
  | (o, w') => native_failure (host w0) o
  end.
Proof.
  intros Hn Hh Ht Hb.
  pose (I := fun (j : nat) (_ : unit) (w1 : World) =>
    host w1 = host w0 /\
    trace w1 = trace w0
      ++ map call (pre ++ join_calls (slot_ptr b 0) device_map total nid 0
                            (take j (dm_device_list device_map))) /\
    block_filled w1 b n j).
  pose proof (for_loop_inv I (fun o _ => native_failure (host w0) o)
    (fun i _ =>
      match dm_device_list device_map !! i with
      | Some dev =>
          checked (cudaSetDevice dev) ;;
          nccl_comm_init_rank (ptr_add (slot_ptr b 0) i) total nid
                              (dm_global_id device_map dev)
      | None => undefined
      end) n 0 tt w) as HL.
  lapply HL; [clear HL; intros HL|].
  2:{ unfold I. simpl. by rewrite app_nil_r. }
  lapply HL; [clear HL; intros HL|].
  - destruct (for_loop _ _ _ _ _) as [[[]|e|] w']; [|done..].
    destruct HL as (Hh' & Ht' & Hb'). simpl in Ht', Hb'.
    by rewrite Hn, firstn_all in Ht'.
  - clear HL. intros j [] w1 Hj (Hh1 & Ht1 & Hb1).
    destruct (lookup_lt_is_Some_2 (dm_device_list device_map) j) as [dev Hdev];
      [lia|].
    rewrite Hdev. rewrite <- Hh1. unfold nccl_comm_init_rank.
    do 2 step_checked.
    change (ptr_add (slot_ptr b 0) j) with (slot_ptr b j).
    destruct (init_comm_run (log (call (ncclCommInitRank (slot_ptr b j)
                total nid (dm_global_id device_map dev)))
                (log (call (cudaSetDevice dev)) w1)) b n j)
      as (w2 & Hrun & Hh2 & Ht2 & Hb2); [done|lia|].
    rewrite Hrun. unfold I. simpl in Hh2, Ht2. split; [congruence|]. split; [|done].
    rewrite Ht2, Ht1.
    rewrite (join_calls_take_S _ _ _ _ _ _ _ Hdev).
    rewrite !map_app. simpl. by rewrite <- !app_assoc.
Qed.

Lemma bootstrap_mpi_run b n device_map total w :
  n = length (dm_device_list device_map) ->
  block_filled w b n 0 ->
  match bootstrap_mpi (slot_ptr b 0) device_map total w with
  | (Normal _, w') =>
      host w' = host w /\
      trace w' = trace w
        ++ map call (mpi_bootstrap_calls (host w) (slot_ptr b 0) device_map total) /\
      block_filled w' b n n
  | (o, w') => native_failure (host w) o
  end.
Proof.
  intros Hn Hb. unfold bootstrap_mpi, mpi_bcast.
  do 2 step_checked.
  pose proof (join_loop_run b n device_map total (agreed_id (host w)) w) as HJ.
  unfold mpi_bootstrap_calls, mpi_prologue, sent_id, agreed_id in *.
  destruct (mpi_rank (host w) =? 0)%Z eqn:Hr.
  - do 2 step_checked. mnorm. rewrite Hr. step_checked.
    rewrite <- Hn. unfold bind at 1.
    match goal with
    | |- context [for_loop _ _ _ _ ?w1] =>
        specialize (HJ w1 [MPI_Comm_rank; MPI_Comm_size; ncclGetUniqueId;
                           MPI_Bcast (unique_id (host w)) 0; ncclGroupStart]
                      Hn eq_refl)
    end.
    lapply HJ; [clear HJ; intros HJ|simpl; by rewrite <- !app_assoc].
    lapply HJ; [clear HJ; intros HJ|done].
    destruct (for_loop _ _ _ _ _) as [[[]|e|] w']; [|done..].
    destruct HJ as (Hh' & Ht' & Hb').
    destruct (checked_run ncclGroupEnd w') as [[-> HfE]|[-> HfE]];
      [|rewrite Hh' in HfE; native_fails].
    split; [done|]. split; [|done]. simpl. rewrite Ht'.
    rewrite !map_app. simpl. by rewrite <- !app_assoc.
  - step_checked. mnorm. rewrite Hr. step_checked.
    rewrite <- Hn. unfold bind at 1.
    match goal with
    | |- context [for_loop _ _ _ _ ?w1] =>
        specialize (HJ w1 [MPI_Comm_rank; MPI_Comm_size;
                           MPI_Bcast (uninit_id (host w)) 0; ncclGroupStart]
                      Hn eq_refl)
    end.
    lapply HJ; [clear HJ; intros HJ|simpl; by rewrite <- !app_assoc].
    lapply HJ; [clear HJ; intros HJ|done].
    destruct (for_loop _ _ _ _ _) as [[[]|e|] w']; [|done..].
    destruct HJ as (Hh' & Ht' & Hb').
    destruct (checked_run ncclGroupEnd w') as [[-> HfE]|[-> HfE]];
      [|rewrite Hh' in HfE; native_fails].
    split; [done|]. split; [|done]. simpl. rewrite Ht'.
    rewrite !map_app. simpl. by rewrite <- !app_assoc.
Qed.

Lemma init_all_loop_run b n w :
  block_filled w b n 0 ->
  exists w', for_loop n 0 (fun i _ => init_comm (ptr_add (slot_ptr b 0) i)) tt w
             = (Normal tt, w') /\
    host w' = host w /\ trace w' = trace w /\ block_filled w' b n n.
Proof.
  intros Hb.
  pose proof (for_loop_inv
    (fun j (_ : unit) w1 => host w1 = host w /\ trace w1 = trace w /\
                            block_filled w1 b n j)
    (fun _ _ => False)
    (fun i _ => init_comm (ptr_add (slot_ptr b 0) i)) n 0 tt w) as HL.
  lapply HL; [clear HL; intros HL|done].
  lapply HL; [clear HL; intros HL|].
  - destruct (for_loop _ _ _ _ _) as [[[]|e|] w']; [|done..]. by exists w'.
  - clear HL. intros j [] w1 Hj (Hh1 & Ht1 & Hb1).
    change (ptr_add (slot_ptr b 0) j) with (slot_ptr b j).
    destruct (init_comm_run w1 b n j) as (w2 & -> & Hh2 & Ht2 & Hb2); [done|lia|].
    split; [congruence|]. split; [congruence|done].
Qed.

Lemma bootstrap_local_run b n device_map w :
  n = length (dm_device_list device_map) ->
  block_filled w b n 0 ->
  match bootstrap_local (slot_ptr b 0) device_map w with
  | (Normal _, w') =>
      host w' = host w /\
      trace w' = trace w ++ [call (ncclCommInitAll (slot_ptr b 0) n
                                     (dm_device_list device_map))] /\
      block_filled w' b n n
  | (o, w') => native_failure (host w) o
  end.
Proof.
  intros Hn Hb. unfold bootstrap_local, nccl_comm_init_all. rewrite <- Hn.
  step_checked.
  destruct (init_all_loop_run b n
              (log (call (ncclCommInitAll (slot_ptr b 0) n
                            (dm_device_list device_map))) w))
    as (w' & -> & Hh & Ht & Hb'); [done|].
  done.
Qed.

Lemma ctor_bootstrap_run mpi b device_map w :
  block_filled w b (length (dm_device_list device_map)) 0 ->
  match ctor_bootstrap mpi device_map
          (set_comms (slot_ptr b 0) (new_group device_map)) w with
  | (Normal _, w') =>
      host w' = host w /\
      trace w' = trace w
        ++ map call (bootstrap_calls mpi (host w) (slot_ptr b 0) device_map) /\
      block_filled w' b (length (dm_device_list device_map))
                   (length (dm_device_list device_map))
  | (o, w') => native_failure (host w) o
  end.
Proof.
  intros Hb. unfold ctor_bootstrap, bootstrap_calls. destruct mpi; simpl comms_.
  - by apply bootstrap_mpi_run.
  - by apply bootstrap_local_run.
Qed.

(** ** The constructor and the [try] block of [GPUResource] *)

Lemma bind_fresh {B} (f : nat -> M B) w : bind fresh f w = f (next_id w) (bump w).
Proof. reflexivity. Qed.

Lemma bind_emit {B} c (f : unit -> M B) w : bind (emit c) f w = f tt (log (call c) w).
Proof. reflexivity. Qed.

(** Splits on every checked call of a straight-line computation. *)
Ltac split_checked :=
  repeat (repeat first [rewrite bind_bind | rewrite bind_ret | rewrite bind_ask
                       | rewrite bind_fresh | rewrite bind_emit];
          match goal with
          | |- context [bind (checked ?c) ?k ?w] =>
              let Hf := fresh "Hf" in
              destruct (fails (host w) (trace w) c) eqn:Hf;
              [rewrite (bind_checked_fail c k w Hf)
              |rewrite (bind_checked_ok c k w Hf)]
          end).

Lemma GPUResource_ctor_run dev p w :
  match GPUResource_ctor dev p w with
  | (o, w') =>
      host w' = host w /\ heap w' = heap w /\
      (exists evs, trace w' = trace w ++ evs /\
                   Forall (fun ev => on_call is_resource_call ev = true) evs) /\
      match o with
      | Normal r => device_id_ r = dev /\ comm_ r = p
      | _ => native_failure (host w) o
      end
  end.
Proof.
  unfold GPUResource_ctor, CudaDeviceContext, scoped, create.
  split_checked;
    (split; [done|]; split; [done|]; split;
     [simpl; rewrite <- ?app_assoc; eexists; split;
      [reflexivity|repeat constructor]
     |first [done | eexists _, _; split; [reflexivity|eassumption]]]).
Qed.

Lemma GPUResource_teardown_run this w :
  match GPUResource_teardown this w with
  | (o, w') =>
      host w' = host w /\ heap w' = heap w /\
      (exists evs, trace w' = trace w ++ evs /\
                   Forall (fun ev => on_call is_comm_destroy ev = false) evs) /\
      match o with
      | Normal _ => True
      | _ => native_failure (host w) o
      end
  end.
Proof.
  unfold GPUResource_teardown, CudaDeviceContext, scoped.
  split_checked;
    try match goal with
        | |- context [checked ?c ?w] =>
            let Hf := fresh "Hf" in destruct (checked_run c w) as [[-> Hf]|[-> Hf]]
        end;
    (split; [done|]; split; [done|]; split;
     [simpl; rewrite <- ?app_assoc; eexists; split;
      [reflexivity|repeat constructor]
     |first [done | eexists _, _; split; [reflexivity|eassumption]]]).
Qed.

(** ** The constructor of the group *)

Lemma native_failure_Thrown {A B} h e :
  @native_failure A h (Thrown e) -> @native_failure B h (Thrown e).
Proof. intros (c & hist & [= ->] & H). by exists c, hist. Qed.

Lemma native_failure_Undefined {A} h : ~ @native_failure A h Undefined.
Proof. by intros (c & hist & ? & _). Qed.

Lemma ctor_build_resources_run device_map comms w :
  match ctor_build_resources device_map (set_comms comms (new_group device_map)) w with
  | (Normal rs, w') =>
      host w' = host w /\ heap w' = heap w /\
      (exists evs, trace w' = trace w ++ evs /\
                   Forall (fun ev => on_call is_resource_call ev = true) evs) /\
      length rs = length (dm_device_list device_map) /\
      resources_for device_map comms rs
  | (o, w') => native_failure (host w) o
  end.
Proof.
  unfold ctor_build_resources. simpl gpu_resources_. simpl comms_.
  pose proof (for_loop_inv
    (fun j rs w1 =>
       host w1 = host w /\ heap w1 = heap w /\
       (exists evs, trace w1 = trace w ++ evs /\
                    Forall (fun ev => on_call is_resource_call ev = true) evs) /\
       length rs = j /\ resources_for device_map comms rs)
    (fun o _ => native_failure (host w) o)
    (fun i gpu_resources =>
       match dm_device_list device_map !! i with
       | Some dev =>
           r <- GPUResource_ctor dev (ptr_add comms i) ;;
           ret (gpu_resources ++ [r])
       | None => undefined
       end) (length (dm_device_list device_map)) 0 [] w) as HL.
  lapply HL; [clear HL; intros HL|].
  2:{ split; [done|]. split; [done|]. split; [|split; [done|]].
      - exists []. by rewrite app_nil_r.
      - by intros k r. }
  lapply HL; [clear HL; intros HL|].
  { by destruct (for_loop _ _ _ _ _) as [[rs|e|] w']. }
  clear HL. intros j rs w1 Hj (Hh1 & Hp1 & (evs1 & Ht1 & He1) & Hlen & Hrs).
  destruct (lookup_lt_is_Some_2 (dm_device_list device_map) j) as [dev Hdev]; [lia|].
  rewrite Hdev. unfold bind.
  pose proof (GPUResource_ctor_run dev (ptr_add comms j) w1) as HR.
  destruct (GPUResource_ctor _ _ _) as [[r|e|] w2];
    destruct HR as (Hh2 & Hp2 & (evs2 & Ht2 & He2) & Ho).
  - destruct Ho as [Hd Hc]. unfold ret.
    split; [congruence|]. split; [congruence|]. split; [|split].
    + exists (evs1 ++ evs2). rewrite Ht2, Ht1, app_assoc. split; [done|].
      by apply Forall_app.
    + rewrite length_app. simpl. lia.
    + intros k r' Hk. apply lookup_app_Some in Hk as [Hk|[Hge Hk]].
      * by apply Hrs.
      * apply list_lookup_singleton_Some in Hk as [Hk0 <-].
        assert (k = j) as -> by lia. by exists dev.
  - rewrite <- Hh1. by eapply native_failure_Thrown.
  - by apply native_failure_Undefined in Ho.
Qed.

Lemma validate_outcome_defined visible device_map :
  validate_outcome visible device_map <> Undefined.
Proof.
  unfold validate_outcome.
  destruct (_ =? _); [done|]. by destruct (first_invalid _ _).
Qed.

Lemma GPUResourceGroup_ctor_run mpi device_map w :
  match GPUResourceGroup_ctor mpi device_map w with
  | (Normal g, w') => constructed mpi device_map w g w'
  | (Thrown e, w') =>
      validate_outcome (visible_devices (host w)) device_map = Thrown e
        /\ w' = logs (validate_events device_map) w
      \/ validate_outcome (visible_devices (host w)) device_map = Normal tt
        /\ native_failure (A:=unit) (host w) (Thrown e)
  | (Undefined, _) => False
  end.
Proof.
  unfold GPUResourceGroup_ctor. unfold bind at 1. rewrite ctor_validate_run.
  destruct (validate_outcome _ _) as [[]|e|] eqn:Hv;
    [|by left|by apply validate_outcome_defined in Hv].
  unfold bind at 1. unfold new_comm_array at 1.
  set (w0 := logs (validate_events device_map) w).
  set (w1 := set_heap _ w0).
  change (length (heap w0)) with (length (heap w)).
  unfold bind at 1.
  pose proof (ctor_bootstrap_run mpi (length (heap w)) device_map w1
                (new_comm_array_filled _ w0)) as HB.
  destruct (ctor_bootstrap _ _ _ _) as [[[]|e|] w2];
    [|right; split; [done|]; by eapply native_failure_Thrown
     |by apply native_failure_Undefined in HB].
  destruct HB as (Hh2 & Ht2 & Hb2).
  unfold bind at 1.
  pose proof (ctor_build_resources_run device_map
                (slot_ptr (length (heap w)) 0) w2) as HR.
  destruct (ctor_build_resources _ _ _) as [[rs|e|] w3] eqn:Hbuild;
    [|right; split; [done|]; rewrite Hh2 in HR; by eapply native_failure_Thrown
     |by apply native_failure_Undefined in HR].
  destruct HR as (Hh3 & Hp3 & (post & Ht3 & He3) & Hlen & Hrs).
  unfold ret, constructed. cbv beta iota zeta. simpl gpu_resources_.
  split; [done|]. split; [done|]. split; [by rewrite Hh3, Hh2|].
  exists w2, post. split; [done|]. split; [|done].
  rewrite Ht2. simpl. by rewrite <- app_assoc.
Qed.

(** ** Facts about the event lists *)

Lemma validate_events_Forall (P : Event -> Prop) device_map :
  (forall n, P (call (thread_pool_create n))) ->
  (forall k, P (call (thread_set_affinity k))) ->
  P (call cudaGetDeviceCount) ->
  Forall P (validate_events device_map).
Proof.
  intros Hpool Haff Hcount. unfold validate_events.
  constructor; [done|]. apply Forall_app. split.
  - unfold affinity_events. apply Forall_map, Forall_forall. intros k _. apply Haff.
  - destruct (_ =? _); by repeat constructor.
Qed.

Lemma join_calls_collective comms device_map total nid l : forall i,
  Forall (fun c => is_collective_call c = true)
         (join_calls comms device_map total nid i l).
Proof. induction l as [|d l IH]; intros i; simpl; by repeat constructor. Qed.

Lemma bootstrap_calls_collective mpi h comms device_map :
  Forall (fun c => is_collective_call c = true)
         (bootstrap_calls mpi h comms device_map).
Proof.
  unfold bootstrap_calls, mpi_bootstrap_calls, mpi_prologue. destruct mpi.
  - repeat (apply Forall_app; split); try by repeat constructor.
    + destruct (_ =? _)%Z; by repeat constructor.
    + apply join_calls_collective.
  - by repeat constructor.
Qed.

Lemma collective_not_resource c :
  is_collective_call c = true -> is_resource_call c = false.
Proof. by destruct c. Qed.

Lemma resource_not_collective c :
  is_resource_call c = true -> is_collective_call c = false.
Proof. by destruct c. Qed.

Lemma Forall_map_call (p q : Call -> bool) (b1 b2 : bool) (l : list Call) :
  (forall c, p c = b1 -> q c = b2) ->
  Forall (fun c => p c = b1) l ->
  Forall (fun ev => on_call q ev = b2) (map call l).
Proof.
  intros Hpq Hl. apply Forall_map. eapply Forall_impl; [exact Hl|].
  intros c Hc. simpl. by apply Hpq.
Qed.

Lemma join_calls_length comms device_map total nid l : forall i,
  length (join_calls comms device_map total nid i l) = 2 * length l.
Proof. induction l as [|d l IH]; intros i; simpl; [done|]. rewrite IH. lia. Qed.

(** The join of local index [i] is the pair of calls at positions [2i] and
    [2i+1] of the join loop. *)
Lemma join_calls_lookup comms device_map total nid l i dev :
  l !! i = Some dev ->
  join_calls comms device_map total nid 0 l !! (2 * i) = Some (cudaSetDevice dev) /\
  join_calls comms device_map total nid 0 l !! (2 * i + 1)
  = Some (ncclCommInitRank (ptr_add comms i) total nid (dm_global_id device_map dev)).
Proof.
  assert (forall l k i,
    l !! i = Some dev ->
    join_calls comms device_map total nid k l !! (2 * i) = Some (cudaSetDevice dev) /\
    join_calls comms device_map total nid k l !! (2 * i + 1)
    = Some (ncclCommInitRank (ptr_add comms (k + i)) total nid
              (dm_global_id device_map dev))) as H.
  { clear. induction l as [|d l IH]; intros k i Hi; [done|].
    destruct i as [|i]; simpl in *.
    - injection Hi as ->. by rewrite Nat.add_0_r.
    - replace (i + S (i + 0)) with (S (2 * i)) by lia.
      replace (k + S i) with (S k + i) by lia. simpl.
      destruct (IH (S k) i Hi) as [H1 H2]. split; [done|].
      by replace (i + (i + 0) + 1) with (2 * i + 1) by lia. }
  intros Hi. apply (H l 0 i Hi).
Qed.

(** ** Valid device maps and indices *)

Lemma validate_outcome_valid h device_map :
  valid_device_map h device_map ->
  validate_outcome (visible_devices h) device_map = Normal tt.
Proof.
  intros (Hne & Hall & _). unfold validate_outcome.
  destruct (dm_device_list device_map) as [|d l] eqn:Hl; [done|]. simpl length.
  simpl Nat.eqb. cbv iota. by apply first_invalid_None in Hall as ->.
Qed.

Lemma healthy_no_failure {A} h (o : Outcome A) :
  healthy h -> ~ native_failure h o.
Proof. intros Hh (c & hist & _ & Hf). by rewrite Hh in Hf. Qed.

Lemma size_t_of_int_small idx :
  (0 <= idx <= INT_MAX)%Z -> size_t_of_int idx = idx.
Proof.
  unfold INT_MAX, size_t_of_int. intros H. apply Z.mod_small.
  assert (2 ^ 31 < 2 ^ 64)%Z by (by apply Z.pow_lt_mono_r). lia.
Qed.

Lemma operator_index_local g i :
  (Z.of_nat i <= INT_MAX)%Z ->
  operator_index g (Z.of_nat i) = gpu_resources_ g !! i.
Proof.
  intros Hi. unfold operator_index, vector_at.
  rewrite size_t_of_int_small by lia. rewrite Nat2Z.id.
  destruct (decide _) as [_|Hn]; [done|].
  symmetry. apply lookup_ge_None. lia.
Qed.

Lemma constructed_size mpi device_map w g w' :
  constructed mpi device_map w g w' ->
  size g = length (dm_device_list device_map) /\
  length (gpu_resources_ g) = size g /\
  device_map_ g = device_map /\
  comms_ g = slot_ptr (length (heap w)) 0.
Proof.
  intros (_ & Hg & _ & w1 & post & _ & _ & _ & _ & _ & _ & Hlen & _).
  rewrite Hg. unfold size. simpl. by rewrite Hlen.
Qed.

(** ** The identity a job agrees on *)

Lemma mpi_job_agreed_id hosts h0 r h :
  mpi_job hosts -> hosts !! 0 = Some h0 -> hosts !! r = Some h ->
  agreed_id h = unique_id h0 /\
  (mpi_rank h =? 0)%Z = bool_decide (r = 0) /\
  sent_id h = if bool_decide (r = 0) then unique_id h0 else uninit_id h.
Proof.
  intros Hjob H0 Hr.
  destruct (Hjob r h Hr) as (Hrank & _ & Hpay).
  destruct (Hjob 0 h0 H0) as (Hrank0 & _ & _).
  specialize (Hpay h0 H0). unfold agreed_id, sent_id in *.
  rewrite Hrank, Hrank0 in *. simpl in Hpay.
  destruct r as [|r]; simpl.
  - by assert (h = h0) as -> by congruence.
  - by rewrite Hpay.
Qed.

(** ** The destructors *)

Lemma comm_destroys_app evs1 evs2 :
  comm_destroys (evs1 ++ evs2) = comm_destroys evs1 ++ comm_destroys evs2.
Proof. apply omap_app. Qed.

Lemma comm_destroys_destroy_events slots :
  comm_destroys (destroy_events slots) = slots.
Proof.
  induction slots as [|c l IH]; [done|].
  change (destroy_events (c :: l)) with ([call (ncclCommDestroy c)] ++ destroy_events l).
  by rewrite comm_destroys_app, IH.
Qed.

Lemma comm_destroys_none evs :
  Forall (fun ev => on_call is_comm_destroy ev = false) evs -> comm_destroys evs = [].
Proof.
  induction 1 as [|ev evs Hev _ IH]; [done|].
  change (ev :: evs) with ([ev] ++ evs). rewrite comm_destroys_app, IH.
  destruct ev as [c|e]; [|done]. by destruct c.
Qed.

Lemma load_slot this w i c :
  comm_slots this w !! i = Some c ->
  load (ptr_add (comms_ this) i) w = (Normal c, w).
Proof.
  unfold comm_slots, load. destruct (comms_ this) as [|b o]; [done|]. simpl.
  intros H. apply lookup_take_Some in H as [H _]. rewrite lookup_drop in H.
  destruct (heap w !! b) as [blk|]; simpl in *; [|done]. by rewrite H.
Qed.

Lemma destroy_loop_run this w :
  let slots := comm_slots this w in
  comms_allocated this w ->
  match
    for_loop (length (gpu_resources_ this)) 0 (fun i _ =>
      c <- load (ptr_add (comms_ this) i) ;;
      checked (ncclCommDestroy c)) tt w
  with
  | (Normal _, w') => w' = logs (destroy_events slots) w
  | (Thrown e, w') =>
      exists k c, slots !! k = Some c /\ e = ck_native (ncclCommDestroy c) /\
        w' = logs (destroy_events (take (S k) slots)) w /\
        fails (host w) (trace w ++ destroy_events (take k slots)) (ncclCommDestroy c)
        = true
  | (Undefined, _) => False
  end.
Proof.
  intros slots Halloc.
  pose proof (for_loop_inv
    (fun j (_ : unit) w1 => w1 = logs (destroy_events (take j slots)) w)
    (fun o w' =>
       match o with
       | Thrown e =>
           exists k c, slots !! k = Some c /\ e = ck_native (ncclCommDestroy c) /\
             w' = logs (destroy_events (take (S k) slots)) w /\
             fails (host w) (trace w ++ destroy_events (take k slots))
                   (ncclCommDestroy c) = true
       | _ => False
       end)
    (fun i _ =>
      c <- load (ptr_add (comms_ this) i) ;;
      checked (ncclCommDestroy c)) (length (gpu_resources_ this)) 0 tt w) as HL.
  lapply HL; [clear HL; intros HL|by rewrite take_0, logs_nil].
  lapply HL; [clear HL; intros HL|].
  - destruct (for_loop _ _ _ _ _) as [[[]|e|] w']; [|done..].
    simpl in HL. rewrite <- Halloc in HL. by rewrite firstn_all in HL.
  - clear HL. intros j [] w1 Hj ->.
    destruct (lookup_lt_is_Some_2 slots j) as [c Hc];
      [unfold slots; rewrite Halloc; lia|].
    unfold bind.
    rewrite (load_slot this (logs (destroy_events (take j slots)) w) j c Hc).
    destruct (checked_run (ncclCommDestroy c)
                (logs (destroy_events (take j slots)) w)) as [[-> Hf]|[-> Hf]].
    + unfold log. rewrite logs_logs, (take_S_r _ _ _ Hc).
      unfold destroy_events. by rewrite map_app.
    + exists j, c. split; [done|]. split; [done|]. split; [|done].
      unfold log. rewrite logs_logs, (take_S_r _ _ _ Hc).
      unfold destroy_events. by rewrite map_app.
Qed.

Lemma try_catch_report m w :
  (m w).1 <> Undefined -> try_catch m report w = (Normal tt, caught (m w)).
Proof.
  unfold try_catch, report, caught. by destruct (m w) as [[[]|e|] w1].
Qed.

Lemma GPUResource_teardown_defined this w :
  (GPUResource_teardown this w).1 <> Undefined.
Proof.
  pose proof (GPUResource_teardown_run this w) as H.
  destruct (GPUResource_teardown this w) as [[[]|e|] w1]; [done..|].
  destruct H as (_ & _ & _ & H). by apply native_failure_Undefined in H.
Qed.

Lemma GPUResource_dtor_run this w :
  GPUResource_dtor this w = (Normal tt, caught (GPUResource_teardown this w)) /\
  host (caught (GPUResource_teardown this w)) = host w /\
  heap (caught (GPUResource_teardown this w)) = heap w /\
  exists evs, trace (caught (GPUResource_teardown this w)) = trace w ++ evs /\
              comm_destroys evs = [].
Proof.
  split; [apply try_catch_report, GPUResource_teardown_defined|].
  pose proof (GPUResource_teardown_run this w) as H.
  destruct (GPUResource_teardown this w) as [[[]|e|] w1];
    destruct H as (Hh & Hp & (evs & Ht & He) & _); simpl;
    (split; [done|]; split; [done|]).
  - exists evs. split; [done|]. by apply comm_destroys_none.
  - exists (evs ++ [cerr e]). rewrite Ht, app_assoc. split; [done|].
    rewrite comm_destroys_app, (comm_destroys_none _ He). done.
  - exists evs. split; [done|]. by apply comm_destroys_none.
Qed.

Lemma release_resources_run rs : forall w,
  exists w', for_each rs GPUResource_dtor w = (Normal tt, w') /\
    host w' = host w /\ heap w' = heap w /\
    exists evs, trace w' = trace w ++ evs /\ comm_destroys evs = [].
Proof.
  induction rs as [|r rs IH]; intros w; simpl.
  - exists w. split; [done|]. split; [done|]. split; [done|].
    exists []. by rewrite app_nil_r.
  - destruct (GPUResource_dtor_run r w) as (Hrun & Hh & Hp & evs1 & Ht1 & He1).
    unfold bind. rewrite Hrun.
    destruct (IH (caught (GPUResource_teardown r w)))
      as (w' & Hrun' & Hh' & Hp' & evs2 & Ht2 & He2).
    exists w'. split; [done|]. split; [congruence|]. split; [congruence|].
    exists (evs1 ++ evs2). rewrite Ht2, Ht1, app_assoc. split; [done|].
    by rewrite comm_destroys_app, He1, He2.
Qed.

Lemma GPUResourceGroup_teardown_run this w :
  let slots := comm_slots this w in
  comms_allocated this w ->
  match GPUResourceGroup_teardown this w with
  | (Normal _, w') =>
      w' = logs (destroy_events
                   (if 1 <? length (gpu_resources_ this) then slots else [])) w
  | (Thrown e, w') =>
      1 < length (gpu_resources_ this) /\
      exists k c, slots !! k = Some c /\ e = ck_native (ncclCommDestroy c) /\
        w' = logs (destroy_events (take (S k) slots)) w /\
        fails (host w) (trace w ++ destroy_events (take k slots)) (ncclCommDestroy c)
        = true
  | (Undefined, _) => False
  end.
Proof.
  intros slots Halloc. unfold GPUResourceGroup_teardown.
  destruct (Nat.ltb_spec 1 (length (gpu_resources_ this))) as [Hlt|Hle]; simpl.
  - pose proof (destroy_loop_run this w Halloc) as H.
    by destruct (for_loop _ _ _ _ _) as [[[]|e|] w'].
  - unfold ret. by rewrite logs_nil.
Qed.

Lemma GPUResourceGroup_teardown_defined this w :
  comms_allocated this w -> (GPUResourceGroup_teardown this w).1 <> Undefined.
Proof.
  intros Halloc. pose proof (GPUResourceGroup_teardown_run this w Halloc) as H.
  by destruct (GPUResourceGroup_teardown this w) as [[[]|e|] w1].
Qed.

(** The loop of the destructor, call by call: every call before the one
    that ends the loop reported no error, each judged by the host on the
    trace as it stood when the call was made. *)
Lemma destroy_loop_first_failure this w :
  let slots := comm_slots this w in
  let reports_error i c :=
    fails (host w) (trace w ++ destroy_events (take i slots)) (ncclCommDestroy c) in
  comms_allocated this w ->
  match
    for_loop (length (gpu_resources_ this)) 0 (fun i _ =>
      c <- load (ptr_add (comms_ this) i) ;;
      checked (ncclCommDestroy c)) tt w
  with
  | (Normal _, w') =>
      w' = logs (destroy_events slots) w /\
      forall i c, slots !! i = Some c -> reports_error i c = false
  | (Thrown e, w') =>
      exists k c, slots !! k = Some c /\ e = ck_native (ncclCommDestroy c) /\
        w' = logs (destroy_events (take (S k) slots)) w /\
        reports_error k c = true /\
        forall i c', i < k -> slots !! i = Some c' -> reports_error i c' = false
  | (Undefined, _) => False
  end.
Proof.
  intros slots reports_error Halloc.
  pose proof (for_loop_inv
    (fun j (_ : unit) w1 =>
       w1 = logs (destroy_events (take j slots)) w /\
       forall i c, i < j -> slots !! i = Some c -> reports_error i c = false)
    (fun o w' =>
       match o with
       | Thrown e =>
           exists k c, slots !! k = Some c /\ e = ck_native (ncclCommDestroy c) /\
             w' = logs (destroy_events (take (S k) slots)) w /\
             reports_error k c = true /\
             forall i c', i < k -> slots !! i = Some c' -> reports_error i c' = false
       | _ => False
       end)
    (fun i _ =>
      c <- load (ptr_add (comms_ this) i) ;;
      checked (ncclCommDestroy c)) (length (gpu_resources_ this)) 0 tt w) as HL.
  lapply HL; [clear HL; intros HL|].
  2:{ rewrite take_0, logs_nil. split; [done|]. intros i c Hi. lia. }
  lapply HL; [clear HL; intros HL|].
  - destruct (for_loop _ _ _ _ _) as [[[]|e|] w']; [|done..].
    simpl in HL. destruct HL as [-> Hok]. rewrite <- Halloc. fold slots.
    rewrite firstn_all. split; [done|]. intros i c Hi. apply Hok; [|done].
    apply lookup_lt_Some in Hi. fold slots in Halloc. unfold comms_allocated in Halloc.
    fold slots in Halloc. lia.
  - clear HL. intros j [] w1 Hj [-> Hok].
    destruct (lookup_lt_is_Some_2 slots j) as [c Hc];
      [unfold slots; rewrite Halloc; lia|].
    unfold bind.
    rewrite (load_slot this (logs (destroy_events (take j slots)) w) j c Hc).
    destruct (checked_run (ncclCommDestroy c)
                (logs (destroy_events (take j slots)) w)) as [[-> Hf]|[-> Hf]].
    + split.
      * unfold log. rewrite logs_logs, (take_S_r _ _ _ Hc).
        unfold destroy_events. by rewrite map_app.
      * intros i c' Hi Hc'. destruct (decide (i = j)) as [->|Hne].
        -- assert (c' = c) as -> by congruence. exact Hf.
        -- apply Hok; [lia|done].
    + exists j, c. split; [done|]. split; [done|]. split; [|split; [exact Hf|done]].
      unfold log. rewrite logs_logs, (take_S_r _ _ _ Hc).
      unfold destroy_events. by rewrite map_app.
Qed.

Lemma GPUResourceGroup_teardown_first_failure this w :
  let slots := comm_slots this w in
  let reports_error i c :=
    fails (host w) (trace w ++ destroy_events (take i slots)) (ncclCommDestroy c) in
  comms_allocated this w ->
  match GPUResourceGroup_teardown this w with
  | (Normal _, w') =>
      w' = logs (destroy_events
                   (if 1 <? length (gpu_resources_ this) then slots else [])) w /\
      (1 < length (gpu_resources_ this) ->
       forall i c, slots !! i = Some c -> reports_error i c = false)
  | (Thrown e, w') =>
      1 < length (gpu_resources_ this) /\
      exists k c, slots !! k = Some c /\ e = ck_native (ncclCommDestroy c) /\
        w' = logs (destroy_events (take (S k) slots)) w /\
        reports_error k c = true /\
        forall i c', i < k -> slots !! i = Some c' -> reports_error i c' = false
  | (Undefined, _) => False
  end.
Proof.
  intros slots reports_error Halloc. unfold GPUResourceGroup_teardown.
  destruct (Nat.ltb_spec 1 (length (gpu_resources_ this))) as [Hlt|Hle]; simpl.
  - pose proof (destroy_loop_first_failure this w Halloc) as H.
    destruct (for_loop _ _ _ _ _) as [[[]|e|] w']; [|done..].
    destruct H as [-> Hok]. by split.
  - unfold ret. rewrite logs_nil. split; [done|]. lia.
Qed.

Lemma delete_comm_array_run p w :
  exists w', delete_comm_array p w = (Normal tt, w') /\
    host w' = host w /\ trace w' = trace w.
Proof. destruct p as [|b o]; by eexists. Qed.

(** Destroying a group returns, and after the destructor body no
    [ncclCommDestroy] is made. *)
Lemma destroy_GPUResourceGroup_run g released w :
  comms_allocated g w ->
  exists w' rest,
    destroy_GPUResourceGroup g released w = (Normal tt, w') /\
    host w' = host w /\
    trace w' = trace (caught (GPUResourceGroup_teardown g w)) ++ rest /\
    comm_destroys rest = [].
Proof.
  intros Halloc. unfold destroy_GPUResourceGroup, bind, GPUResourceGroup_dtor.
  rewrite try_catch_report by by apply GPUResourceGroup_teardown_defined.
  destruct (release_resources_run released (caught (GPUResourceGroup_teardown g w)))
    as (w1 & -> & Hh1 & _ & rest & Ht & Hrest).
  destruct (delete_comm_array_run (comms_ g) w1) as (w2 & -> & Hh2 & Ht2).
  exists w2, rest. split; [done|]. split; [|split; [congruence|done]].
  rewrite Hh2, Hh1.
  pose proof (GPUResourceGroup_teardown_run g w Halloc) as H.
  destruct (GPUResourceGroup_teardown g w) as [[[]|e|] w0]; [| |done].
  - by subst w0.
  - by destruct H as (_ & k & c & _ & _ & -> & _).
Qed.

(** A constructed group satisfies the invariant, in the state the
    constructor leaves. *)
Lemma constructed_comms_allocated mpi device_map w g w' :
  constructed mpi device_map w g w' -> comms_allocated g w'.
Proof.
  intros Hc. destruct (constructed_size _ _ _ _ _ Hc) as (Hsize & Hlen & _ & Hcomms).
  destruct Hc as (_ & _ & _ & w1 & post & _ & _ & (blk & Hb & Hblen & _) & Hheap & _).
  unfold comms_allocated, comm_slots. rewrite Hcomms, Hheap, Hb. simpl.
  rewrite drop_0, length_take. lia.
Qed.

Lemma first_invalid_exists dev_count l dev :
  dev ∈ l -> (dev >= dev_count)%Z -> exists bad, first_invalid dev_count l = Some bad.
Proof.
  intros Hin Hge. destruct (first_invalid dev_count l) as [bad|] eqn:Hf; [by exists bad|].
  apply first_invalid_None in Hf. rewrite Forall_forall in Hf.
  specialize (Hf dev Hin). lia.
Qed.

(** The constructor establishes the invariant. *)
Lemma ctor_allocates_comms mpi device_map w g w' :
  GPUResourceGroup_ctor mpi device_map w = (Normal g, w') -> comms_allocated g w'.
Proof.
  intros Hctor. pose proof (GPUResourceGroup_ctor_run mpi device_map w) as Hrun.
  rewrite Hctor in Hrun. by eapply constructed_comms_allocated.
Qed.

(** ** The scenarios *)

Lemma two_gpu_map_valid : valid_device_map (quiet_host 4) two_gpu_map.
Proof.
  split; [done|]. split; [by repeat constructor|]. by vm_compute.
Defined.

Lemma quiet_host_healthy visible : healthy (quiet_host visible).
Proof. by intros hist c. Defined.

Lemma two_gpu_run :
  GPUResourceGroup_ctor false two_gpu_map (boot (quiet_host 4))
  = (Normal two_gpu_group, two_gpu_world).
Proof. by vm_compute. Defined.

Lemma two_hosts_job : mpi_job two_hosts.
Proof.
  intros [|[|r]] h Hr; [| |done]; injection Hr as <-;
    (split; [done|]; split; [done|]); by intros h0 [= <-].
Defined.

Lemma two_gpu_allocated : comms_allocated two_gpu_group two_gpu_world.
Proof. by vm_compute. Defined.

(** * The claims *)

(** C1.  For every valid device map with [N >= 1] locally listed
    accelerators, constructing a group (with or without [ENABLE_MPI])
    yields exactly [N] resources: [size()] is [N]; [operator[]] at local
    index [i] is the resource whose [get_device_id()] is the [i]-th entry of
    the device list; [get_total_gpu_count()] and [get_node_count()] are the
    map's total accelerator count and process count.  The constructor
    returns such a group on every host whose library calls succeed, and on
    any host it can only fail because a library call reported an error. *)
Theorem group_exposes_local_devices mpi device_map w :
  valid_device_map (host w) device_map ->
  1 <= length (dm_device_list device_map) /\
  (healthy (host w) ->
   exists g w', GPUResourceGroup_ctor mpi device_map w = (Normal g, w')) /\
  (forall g w', GPUResourceGroup_ctor mpi device_map w = (Normal g, w') ->
     length (gpu_resources_ g) = length (dm_device_list device_map) /\
     size g = length (dm_device_list device_map) /\
     (forall i dev, dm_device_list device_map !! i = Some dev ->
        exists r, operator_index g (Z.of_nat i) = Some r /\ get_device_id r = dev) /\
     get_total_gpu_count g = dm_size device_map /\
     get_node_count g = dm_num_nodes device_map) /\
  (forall o w', GPUResourceGroup_ctor mpi device_map w = (o, w') ->
     (exists g, o = Normal g) \/ native_failure (host w) o).
Proof.
  intros Hvalid.
  pose proof (GPUResourceGroup_ctor_run mpi device_map w) as Hrun.
  rewrite (validate_outcome_valid _ _ Hvalid) in Hrun.
  assert (forall o w', GPUResourceGroup_ctor mpi device_map w = (o, w') ->
            (exists g, o = Normal g) \/ native_failure (host w) o) as Hout.
  { intros o w' Hctor. rewrite Hctor in Hrun. destruct o as [g|e|]; [left; by exists g| |done].
    right. destruct Hrun as [[? _]|[_ Hf]]; [done|]. by eapply native_failure_Thrown. }
  split; [|split; [|split; [|done]]].
  - destruct Hvalid as (Hne & _). destruct (dm_device_list device_map); [done|simpl; lia].
  - intros Hhealthy.
    destruct (GPUResourceGroup_ctor mpi device_map w) as [o w'] eqn:Hctor.
    destruct (Hout o w' eq_refl) as [[g ->]|Hf]; [by exists g, w'|].
    by apply healthy_no_failure in Hf.
  - intros g w' Hctor. rewrite Hctor in Hrun.
    destruct (constructed_size _ _ _ _ _ Hrun) as (Hsize & Hlen & Hmap & _).
    destruct Hvalid as (_ & _ & Hint).
    destruct Hrun as (_ & _ & _ & w1 & post & _ & _ & _ & _ & _ & _ & _ & Hrs).
    split; [congruence|]. split; [done|]. split; [|split].
    + intros i dev Hi. pose proof (lookup_lt_Some _ _ _ Hi) as Hlt.
      rewrite operator_index_local by lia.
      destruct (lookup_lt_is_Some_2 (gpu_resources_ g) i) as [r Hr]; [lia|].
      exists r. split; [done|].
      destruct (Hrs i r Hr) as (dev' & Hi' & Hd & _). unfold get_device_id. congruence.
    + unfold get_total_gpu_count. by rewrite Hmap.
    + unfold get_node_count. by rewrite Hmap.
Qed.

(** The scenario of the specification: local accelerators [0; 1], one
    process, four visible accelerators. *)
Lemma group_exposes_local_devices_witness :
  valid_device_map (quiet_host 4) two_gpu_map /\
  exists g w',
    GPUResourceGroup_ctor false two_gpu_map (boot (quiet_host 4)) = (Normal g, w') /\
    length (gpu_resources_ g) = 2 /\
    size g = 2 /\
    (forall i dev, [0; 1]%Z !! i = Some dev ->
       exists r, operator_index g (Z.of_nat i) = Some r /\ get_device_id r = dev) /\
    get_total_gpu_count g = 2%Z /\
    get_node_count g = 1%Z.
Proof.
  split; [exact two_gpu_map_valid|].
  destruct (group_exposes_local_devices false two_gpu_map (boot (quiet_host 4))
              two_gpu_map_valid) as (_ & Hreturns & Hgroup & _).
  destruct (Hreturns (quiet_host_healthy 4)) as (g & w' & Hctor).
  exists g, w'. split; [exact Hctor|]. exact (Hgroup g w' Hctor).
Defined.

(** C2.  The statements of the [ENABLE_MPI] branch (lines 144-158) make the
    protocol of the claim, but not its count.  The second argument of
    [ncclCommInitRank] on line 155 is the name [total_gpu_count], which the
    file does not declare (line 139 is commented out), so the branch does
    not compile.  With that name as a parameter [total]: in an MPI job, a
    process of rank [r] whose bootstrap returns has made exactly these
    calls, in this order: the rank and size queries; [ncclGetUniqueId] if
    and only if [r = 0]; [MPI_Bcast] from root 0; one [ncclGroupStart]; the
    joins; one [ncclGroupEnd].  The joins are, for every local accelerator
    in local index order, [cudaSetDevice(device_list[i])] followed by
    [ncclCommInitRank] on slot [comms_.get() + i] with the identity
    generated by rank 0 and rank [get_global_id(device_list[i])]; the count
    they pass is [total], whatever that is, and the code gives no reason for
    it to be the total accelerator count. *)
Theorem mpi_bootstrap_count_undeclared hosts h0 r b device_map total w w' :
  mpi_job hosts ->
  hosts !! 0 = Some h0 ->
  hosts !! r = Some (host w) ->
  block_filled w b (length (dm_device_list device_map)) 0 ->
  bootstrap_mpi (slot_ptr b 0) device_map total w = (Normal tt, w') ->
  let joins := join_calls (slot_ptr b 0) device_map total (unique_id h0) 0
                          (dm_device_list device_map) in
  trace w'
  = trace w
      ++ map call
           ([MPI_Comm_rank; MPI_Comm_size]
              ++ (if bool_decide (r = 0) then [ncclGetUniqueId] else [])
              ++ [MPI_Bcast (if bool_decide (r = 0) then unique_id h0
                             else uninit_id (host w)) 0;
                  ncclGroupStart]
              ++ joins
              ++ [ncclGroupEnd]) /\
  length joins = 2 * length (dm_device_list device_map) /\
  (forall i dev, dm_device_list device_map !! i = Some dev ->
     joins !! (2 * i) = Some (cudaSetDevice dev) /\
     joins !! (2 * i + 1)
     = Some (ncclCommInitRank (ptr_add (slot_ptr b 0) i) total (unique_id h0)
               (dm_global_id device_map dev))).
Proof.
  intros Hjob H0 Hr Hb Hrun joins.
  pose proof (bootstrap_mpi_run b _ device_map total w eq_refl Hb) as H.
  rewrite Hrun in H. destruct H as (_ & Ht & _).
  destruct (mpi_job_agreed_id _ _ _ _ Hjob H0 Hr) as (Hid & Hrank & Hsent).
  split; [|split].
  - rewrite Ht. unfold mpi_bootstrap_calls, mpi_prologue.
    rewrite Hid, Hrank, Hsent. by rewrite <- !app_assoc.
  - apply join_calls_length.
  - intros i dev Hi. by apply join_calls_lookup.
Qed.

(** Rank 1 of a job of two processes with one accelerator each.  The map
    counts 2 accelerators; the name is given 7 here, and 7 is what the join
    passes. *)
Lemma mpi_bootstrap_count_undeclared_witness :
  mpi_job two_hosts /\
  block_filled rank1_world 0 1 0 /\
  dm_size rank1_map = 2%Z /\
  exists w',
    bootstrap_mpi (slot_ptr 0 0) rank1_map 7 rank1_world = (Normal tt, w') /\
    trace w'
    = map call
        [MPI_Comm_rank; MPI_Comm_size; MPI_Bcast 0%N 0; ncclGroupStart;
         cudaSetDevice 0; ncclCommInitRank (slot_ptr 0 0) 7 40%N 1; ncclGroupEnd].
Proof.
  split; [exact two_hosts_job|].
  assert (block_filled rank1_world 0 1 0) as Hb
    by exact (new_comm_array_filled 1 (boot (job_host 1))).
  split; [exact Hb|]. split; [reflexivity|].
  eexists. split; [reflexivity|].
  exact (proj1 (mpi_bootstrap_count_undeclared two_hosts (job_host 0) 1 0 rank1_map 7
                  rank1_world _ two_hosts_job eq_refl eq_refl Hb eq_refl)).
Defined.

(** C3.  When the constructor returns a group, there is a state [w1], the
    one in which the loop that builds the resources starts, such that no
    call of a [GPUResource] constructor precedes it, no call of the
    bootstrap follows it, and every slot of the communicator array holds a
    communicator in it; each resource's [get_nccl_ptr()] is
    [comms_.get() + i] for its local index [i], which is not null and
    differs from the pointer of every other resource. *)
Theorem comms_populated_before_resources mpi device_map w g w' :
  GPUResourceGroup_ctor mpi device_map w = (Normal g, w') ->
  (exists w1 pre post,
     ctor_build_resources device_map (set_comms (comms_ g) (new_group device_map)) w1
       = (Normal (gpu_resources_ g), w') /\
     trace w1 = trace w ++ pre /\
     trace w' = trace w1 ++ post /\
     Forall (fun ev => on_call is_resource_call ev = false) pre /\
     Forall (fun ev => on_call is_collective_call ev = false) post /\
     heap w' = heap w1 /\
     forall i, i < size g ->
       exists c, load (ptr_add (comms_ g) i) w1 = (Normal (Some c), w1)) /\
  length (gpu_resources_ g) = size g /\
  (forall i r, gpu_resources_ g !! i = Some r ->
     get_nccl_ptr r = ptr_add (comms_ g) i /\ get_nccl_ptr r <> nullptr) /\
  (forall i j ri rj,
     gpu_resources_ g !! i = Some ri -> gpu_resources_ g !! j = Some rj ->
     i <> j -> get_nccl_ptr ri <> get_nccl_ptr rj).
Proof.
  intros Hctor.
  pose proof (GPUResourceGroup_ctor_run mpi device_map w) as Hrun.
  rewrite Hctor in Hrun.
  destruct (constructed_size _ _ _ _ _ Hrun) as (Hsize & Hlen & Hmap & Hcomms).
  destruct Hrun as (_ & _ & _ & w1 & post & Hbuild & Ht1 & Hfill & Hheap & Ht' &
                    Hpost & _ & Hrs).
  rewrite Hcomms. split; [|split; [done|split]].
  - eexists w1, _, post. split; [done|]. split; [exact Ht1|]. split; [done|].
    split; [|split; [|split; [done|]]].
    + apply Forall_app. split.
      * by apply validate_events_Forall.
      * eapply Forall_map_call; [apply collective_not_resource|].
        apply bootstrap_calls_collective.
    + eapply Forall_impl; [exact Hpost|]. intros [c|e] Hc; [|done].
      by apply resource_not_collective.
    + intros i Hi. rewrite Hsize in Hi.
      destruct Hfill as (blk & Hb & Hblen & Hfull).
      destruct (Hfull i Hi) as [c Hc]. exists c.
      unfold load. simpl. by rewrite Hb; simpl; rewrite Hc.
  - intros i r Hr. destruct (Hrs i r Hr) as (dev & _ & _ & Hc).
    unfold get_nccl_ptr. by rewrite Hc.
  - intros i j ri rj Hi Hj Hne.
    destruct (Hrs i ri Hi) as (? & _ & _ & Hci).
    destruct (Hrs j rj Hj) as (? & _ & _ & Hcj).
    unfold get_nccl_ptr. rewrite Hci, Hcj. simpl. intros [= ?]. lia.
Qed.

Lemma comms_populated_before_resources_witness :
  GPUResourceGroup_ctor false two_gpu_map (boot (quiet_host 4))
    = (Normal two_gpu_group, two_gpu_world) /\
  length (gpu_resources_ two_gpu_group) = size two_gpu_group /\
  (forall i r, gpu_resources_ two_gpu_group !! i = Some r ->
     get_nccl_ptr r = ptr_add (comms_ two_gpu_group) i /\ get_nccl_ptr r <> nullptr).
Proof.
  split; [exact two_gpu_run|].
  pose proof (comms_populated_before_resources false two_gpu_map
                (boot (quiet_host 4)) two_gpu_group two_gpu_world two_gpu_run) as H.
  split; [exact (proj1 (proj2 H))|exact (proj1 (proj2 (proj2 H)))].
Defined.

(** C4, as amended.  Destroying a group that holds exactly one resource
    makes no [ncclCommDestroy] call.  Destroying a group that holds more
    than one hands the slots [comms_[0]], [comms_[1]], ... to
    [ncclCommDestroy] in index order, each once, up to and including the
    first call that reports an error: there is a [k] such that exactly the
    first [k] slots are handed over, none of the calls on the first [k - 1]
    slots reported an error, and if [k] is not the number of resources then
    the call on slot [k - 1] did.  Whether a call reports an error is the
    host's answer on the trace as it stood when the call was made.  When no
    call reports an error that is every slot, once per locally-owned
    accelerator.  This holds whichever resources the group is the last
    owner of ([released]). *)
Theorem comm_teardown_until_failure g released w :
  comms_allocated g w ->
  let evs := events_of (destroy_GPUResourceGroup g released) w in
  let slots := comm_slots g w in
  let reports_error i c :=
    fails (host w) (trace w ++ destroy_events (take i slots)) (ncclCommDestroy c) in
  (length (gpu_resources_ g) = 1 -> comm_destroys evs = []) /\
  (1 < length (gpu_resources_ g) ->
     exists k, 1 <= k <= length (gpu_resources_ g) /\
       comm_destroys evs = take k slots /\
       (forall i c, i < k - 1 -> slots !! i = Some c -> reports_error i c = false) /\
       (k < length (gpu_resources_ g) ->
        exists c, slots !! (k - 1) = Some c /\ reports_error (k - 1) c = true) /\
       ((forall hist c, fails (host w) hist (ncclCommDestroy c) = false) ->
        comm_destroys evs = slots)).
Proof.
  intros Halloc evs slots reports_error.
  destruct (destroy_GPUResourceGroup_run g released w Halloc)
    as (w' & rest & Hrun & _ & Ht & Hrest).
  pose proof (GPUResourceGroup_teardown_first_failure g w Halloc) as H.
  cbv zeta in H. fold slots in H. fold reports_error in H.
  unfold comms_allocated in Halloc. fold slots in Halloc.
  assert (forall body, trace (caught (GPUResourceGroup_teardown g w)) = trace w ++ body ->
            comm_destroys evs = comm_destroys body) as Hev.
  { intros body Hbody. unfold evs. rewrite (events_of_app _ _ (body ++ rest)).
    - by rewrite comm_destroys_app, Hrest, app_nil_r.
    - rewrite Hrun. cbn [snd]. by rewrite Ht, Hbody, <- app_assoc. }
  destruct (GPUResourceGroup_teardown g w) as [[[]|e|] w1]; [| |done].
  - destruct H as [-> Hok].
    rewrite (Hev (destroy_events (if 1 <? length (gpu_resources_ g) then slots else [])))
      by done.
    rewrite comm_destroys_destroy_events. split.
    + by intros ->.
    + intros Hlt. apply Nat.ltb_lt in Hlt as Hlt'. rewrite Hlt'.
      exists (length (gpu_resources_ g)). split; [lia|].
      rewrite <- Halloc at 1. rewrite firstn_all. split; [done|].
      split; [|split; [lia|done]]. intros i c _ Hi. by apply Hok.
  - destruct H as (Hlt & k & c & Hk & -> & -> & Hf & Hok).
    rewrite (Hev (destroy_events (take (S k) slots)
                    ++ [cerr (ck_native (ncclCommDestroy c))]))
      by (simpl; by rewrite <- app_assoc).
    rewrite comm_destroys_app, comm_destroys_destroy_events. simpl.
    rewrite app_nil_r. split; [lia|]. intros _.
    pose proof (lookup_lt_Some _ _ _ Hk) as Hklt.
    exists (S k). rewrite Nat.sub_1_r. simpl. split; [lia|]. split; [done|].
    split; [exact Hok|]. split; [intros _; by exists c|].
    intros Hnone. unfold reports_error in Hf. by rewrite Hnone in Hf.
Qed.

(** On the host where every [ncclCommDestroy] reports an error, the group
    of two resources, destroyed as their only owner: the call on slot 0 is
    the first to report an error, so it is the only one. *)
Lemma comm_teardown_until_failure_witness :
  comms_allocated flaky_group flaky_world /\
  comm_destroys (events_of (delete_GPUResourceGroup flaky_group) flaky_world)
  = [Some 0].
Proof.
  assert (comms_allocated flaky_group flaky_world) as Halloc by (vm_compute; reflexivity).
  split; [exact Halloc|].
  assert (1 < length (gpu_resources_ flaky_group)) as Hlt by (vm_compute; lia).
  destruct (proj2 (comm_teardown_until_failure flaky_group (gpu_resources_ flaky_group)
                     flaky_world Halloc) Hlt)
    as (k & Hk & Hev & Hbefore & _).
  destruct k as [|[|k]].
  - exfalso. lia.
  - exact Hev.
  - exfalso. specialize (Hbefore 0 (Some 0) ltac:(lia) eq_refl). discriminate Hbefore.
Defined.

(** C4 as stated fails: a group of two resources, whose array holds the
    communicators 0 and 1, is destroyed with a single [ncclCommDestroy]
    call, on slot 0; that call reports an error and slot 1 is skipped. *)
Lemma comm_teardown_counterexample :
  GPUResourceGroup_ctor false two_gpu_map (boot flaky_host)
    = (Normal flaky_group, flaky_world) /\
  length (gpu_resources_ flaky_group) = 2 /\
  comm_slots flaky_group flaky_world = [Some 0; Some 1] /\
  (delete_GPUResourceGroup flaky_group flaky_world).1 = Normal tt /\
  take 2 (events_of (delete_GPUResourceGroup flaky_group) flaky_world)
    = [call (ncclCommDestroy (Some 0)); cerr (ck_native (ncclCommDestroy (Some 0)))] /\
  comm_destroys (events_of (delete_GPUResourceGroup flaky_group) flaky_world)
    = [Some 0] /\
  ~ (forall g w, comms_allocated g w -> 1 < length (gpu_resources_ g) ->
       comm_destroys (events_of (delete_GPUResourceGroup g) w) = comm_slots g w).
Proof.
  split; [by vm_compute|]. split; [by vm_compute|]. split; [by vm_compute|].
  split; [by vm_compute|]. split; [by vm_compute|]. split; [by vm_compute|].
  intros H. specialize (H flaky_group flaky_world).
  lapply H; [clear H; intros H|by vm_compute].
  lapply H; [clear H; intros H|vm_compute; lia].
  vm_compute in H. discriminate H.
Qed.

(** C5.  On a device map whose local list is empty the constructor throws
    [WrongInput] with the message "Empty device_list"; the only thing it
    has done by then is to create the (empty) worker pool: no handle, stream
    or communicator is created and the heap is untouched. *)
Theorem empty_device_list_rejected mpi device_map w :
  dm_device_list device_map = [] ->
  GPUResourceGroup_ctor mpi device_map w
    = (Thrown (ck_throw WrongInput "Empty device_list"),
       log (call (thread_pool_create 0)) w) /\
  Forall (fun ev => on_call creates_native ev = false)
         (events_of (GPUResourceGroup_ctor mpi device_map) w).
Proof.
  intros Hl.
  assert (GPUResourceGroup_ctor mpi device_map w
          = (Thrown (ck_throw WrongInput "Empty device_list"),
             log (call (thread_pool_create 0)) w)) as Hrun.
  { unfold GPUResourceGroup_ctor, bind. rewrite ctor_validate_run.
    unfold validate_outcome, validate_events. by rewrite Hl. }
  split; [done|].
  rewrite (events_of_app _ _ [call (thread_pool_create 0)]); [by repeat constructor|].
  by rewrite Hrun.
Qed.

Lemma empty_device_list_rejected_witness :
  dm_device_list empty_map = [] /\
  GPUResourceGroup_ctor false empty_map (boot (quiet_host 4))
    = (Thrown (ck_throw WrongInput "Empty device_list"),
       log (call (thread_pool_create 0)) (boot (quiet_host 4))).
Proof.
  split; [reflexivity|].
  exact (proj1 (empty_device_list_rejected false empty_map (boot (quiet_host 4))
                  eq_refl)).
Defined.

(** C6.  When some local accelerator identifier is not below the number of
    accelerators visible on the host, the constructor throws [WrongInput]
    with the message "Invalid device id: " followed by the first such
    identifier of the list.  By then it has created the worker pool, set the
    thread affinities and asked for the device count, and nothing else: no
    handle, stream or communicator is created and the heap is untouched. *)
Theorem invalid_device_id_rejected mpi device_map w dev :
  dev ∈ dm_device_list device_map ->
  (dev >= visible_devices (host w))%Z ->
  exists bad,
    first_invalid (visible_devices (host w)) (dm_device_list device_map) = Some bad /\
    bad ∈ dm_device_list device_map /\
    (bad >= visible_devices (host w))%Z /\
    GPUResourceGroup_ctor mpi device_map w
      = (Thrown (ck_throw WrongInput ("Invalid device id: " +:+ to_string bad)),
         logs (validate_events device_map) w) /\
    Forall (fun ev => on_call creates_native ev = false)
           (events_of (GPUResourceGroup_ctor mpi device_map) w).
Proof.
  intros Hin Hge.
  destruct (first_invalid_exists _ _ _ Hin Hge) as [bad Hbad].
  destruct (first_invalid_Some _ _ _ Hbad) as (Hbin & Hbge & _).
  exists bad. split; [done|]. split; [done|]. split; [done|].
  assert (GPUResourceGroup_ctor mpi device_map w
          = (Thrown (invalid_device_id bad), logs (validate_events device_map) w))
    as Hrun.
  { unfold GPUResourceGroup_ctor, bind. rewrite ctor_validate_run.
    unfold validate_outcome. rewrite Hbad.
    destruct (dm_device_list device_map); [by apply elem_of_nil in Hin|done]. }
  split; [done|].
  rewrite (events_of_app _ _ (validate_events device_map)) by by rewrite Hrun.
  by apply validate_events_Forall.
Qed.

Lemma invalid_device_id_rejected_witness :
  exists bad,
    first_invalid 4 [5]%Z = Some bad /\
    bad ∈ [5]%Z /\
    (bad >= 4)%Z /\
    GPUResourceGroup_ctor false gpu5_map (boot (quiet_host 4))
      = (Thrown (ck_throw WrongInput ("Invalid device id: " +:+ to_string bad)),
         logs (validate_events gpu5_map) (boot (quiet_host 4))) /\
    Forall (fun ev => on_call creates_native ev = false)
           (events_of (GPUResourceGroup_ctor false gpu5_map) (boot (quiet_host 4))).
Proof.
  apply (invalid_device_id_rejected false gpu5_map (boot (quiet_host 4)) 5%Z).
  - apply list_elem_of_here.
  - simpl. lia.
Defined.

Example invalid_device_id_message :
  (GPUResourceGroup_ctor false gpu5_map (boot (quiet_host 4))).1
  = Thrown (ck_throw WrongInput "Invalid device id: 5").
Proof. by vm_compute. Qed.

(** C7.  [get_data_copy_stream] ignores its index: for every resource and
    every two indices it returns the same stream, the one in slot 0 of
    [data_copy_stream_]. *)
Theorem data_copy_stream_ignores_index (r : GPUResource) (i j : Z) :
  get_data_copy_stream r i = get_data_copy_stream r j /\
  get_data_copy_stream r i = fst (data_copy_stream_ r).
Proof. by split. Qed.

(** The second data-copy stream a constructor creates is a stream of its
    own, and no index reaches it through the accessor. *)
Lemma second_data_copy_stream_unreachable dev p w r w' id :
  GPUResource_ctor dev p w = (Normal r, w') ->
  get_data_copy_stream r id <> snd (data_copy_stream_ r).
Proof.
  unfold GPUResource_ctor, CudaDeviceContext, scoped, create.
  split_checked; intros [= <- _]; unfold get_data_copy_stream; simpl; lia.
Qed.

(** C8.  Neither destructor lets an exception out.  [~GPUResource] always
    returns normally; [~GPUResourceGroup], and the destruction of the whole
    group with its resources, always return normally on a group whose
    communicator array has a slot per resource, as every group the
    constructor returns has.  When the [try] block threw [e], the
    destructor's last action is the line for [e] on [std::cerr]; otherwise
    it leaves the state of the [try] block. *)
Theorem destructors_never_throw :
  (forall r w, exists w',
     GPUResource_dtor r w = (Normal tt, w') /\
     match GPUResource_teardown r w with
     | (Thrown e, w1) => w' = log (cerr e) w1
     | (Normal _, w1) => w' = w1
     | (Undefined, _) => False
     end) /\
  (forall g w, comms_allocated g w ->
     (exists w',
        GPUResourceGroup_dtor g w = (Normal tt, w') /\
        match GPUResourceGroup_teardown g w with
        | (Thrown e, w1) => w' = log (cerr e) w1
        | (Normal _, w1) => w' = w1
        | (Undefined, _) => False
        end) /\
     exists w'', delete_GPUResourceGroup g w = (Normal tt, w'')) /\
  (forall mpi device_map w g w',
     GPUResourceGroup_ctor mpi device_map w = (Normal g, w') -> comms_allocated g w').
Proof.
  split; [|split; [|apply ctor_allocates_comms]].
  - intros r w. exists (caught (GPUResource_teardown r w)).
    split; [apply GPUResource_dtor_run|].
    pose proof (GPUResource_teardown_defined r w) as H.
    by destruct (GPUResource_teardown r w) as [[[]|e|] w1].
  - intros g w Halloc.
    pose proof (GPUResourceGroup_teardown_defined g w Halloc) as H.
    assert (GPUResourceGroup_dtor g w
            = (Normal tt, caught (GPUResourceGroup_teardown g w))) as Hd
      by by apply try_catch_report.
    split.
    + exists (caught (GPUResourceGroup_teardown g w)). split; [done|].
      by destruct (GPUResourceGroup_teardown g w) as [[[]|e|] w1].
    + destruct (destroy_GPUResourceGroup_run g (gpu_resources_ g) w Halloc)
        as (w'' & rest & Hrun & _).
      by exists w''.
Qed.

(** On the host where [ncclCommDestroy] fails, the group is still
    destroyed normally and the failure is on [std::cerr]. *)
Lemma destructors_never_throw_witness :
  comms_allocated flaky_group flaky_world /\
  (exists w', GPUResourceGroup_dtor flaky_group flaky_world = (Normal tt, w') /\
     match GPUResourceGroup_teardown flaky_group flaky_world with
     | (Thrown e, w1) => w' = log (cerr e) w1
     | (Normal _, w1) => w' = w1
     | (Undefined, _) => False
     end) /\
  exists w'', delete_GPUResourceGroup flaky_group flaky_world = (Normal tt, w'').
Proof.
  assert (comms_allocated flaky_group flaky_world) as H by by vm_compute.
  split; [exact H|].
  exact (proj1 (proj2 destructors_never_throw) flaky_group flaky_world H).
Defined.

(** C9.  [size()] is the length of the device map's list, so both defensive
    comparisons of the constructor are false for every device map, and on
    no host does the constructor end with either of their two errors. *)
Theorem defensive_size_checks_unreachable mpi device_map w :
  size (new_group device_map) = length (dm_device_list device_map) /\
  negb (length (dm_device_list device_map) =? size (new_group device_map)) = false /\
  negb (length (dm_device_list device_map) =? length (dm_device_list device_map))
    = false /\
  (GPUResourceGroup_ctor mpi device_map w).1
    <> Thrown (ck_throw WrongInput "local_gpu_count != size()") /\
  (GPUResourceGroup_ctor mpi device_map w).1
    <> Thrown (ck_throw WrongInput
                 "device_map->get_device_list().size() != local_gpu_count").
Proof.
  split; [done|]. rewrite size_new_group, Nat.eqb_refl.
  split; [done|]. split; [done|].
  pose proof (GPUResourceGroup_ctor_run mpi device_map w) as Hrun.
  destruct (GPUResourceGroup_ctor mpi device_map w) as [[g|e|] w']; simpl;
    [by split| |by split].
  assert (forall msg, e = ck_throw WrongInput msg ->
            msg = "Empty device_list"
            \/ exists dev, msg = "Invalid device id: " +:+ to_string dev) as He.
  { intros msg ->. destruct Hrun as [[Hv _]|[_ (c & hist & [=] & _)]].
    unfold validate_outcome in Hv. destruct (_ =? _); [left; congruence|].
    destruct (first_invalid _ _) as [dev|]; [|done].
    right. exists dev. unfold invalid_device_id in Hv. congruence. }
  split; intros [= ->]; by destruct (He _ eq_refl) as [?|[dev ?]].
Qed.

(** C10.  [operator[]] does not check its index.  On a constructed group
    (a vector never holds more than [PTRDIFF_MAX] elements) and for every
    [int] index: inside [0 <= idx < size()] it yields the resource at that
    position of the vector; outside that range it yields no value. *)
Theorem operator_index_unchecked mpi device_map w g w' idx :
  GPUResourceGroup_ctor mpi device_map w = (Normal g, w') ->
  (Z.of_nat (size g) <= PTRDIFF_MAX)%Z ->
  (INT_MIN <= idx <= INT_MAX)%Z ->
  ((0 <= idx < Z.of_nat (size g))%Z ->
     is_Some (operator_index g idx) /\
     operator_index g idx = gpu_resources_ g !! Z.to_nat idx) /\
  (~ (0 <= idx < Z.of_nat (size g))%Z -> operator_index g idx = None).
Proof.
  intros Hctor Hmax Hint.
  pose proof (GPUResourceGroup_ctor_run mpi device_map w) as Hrun.
  rewrite Hctor in Hrun.
  destruct (constructed_size _ _ _ _ _ Hrun) as (_ & Hlen & _).
  unfold operator_index, vector_at. rewrite Hlen.
  unfold INT_MIN, INT_MAX, PTRDIFF_MAX in *.
  assert (2 ^ 31 = 2147483648)%Z as E31 by done.
  assert (2 ^ 63 = 9223372036854775808)%Z as E63 by done.
  assert (2 ^ 64 = 18446744073709551616)%Z as E64 by done.
  split.
  - intros Hin. rewrite size_t_of_int_small by (unfold INT_MAX; lia).
    destruct (decide _) as [_|Hn]; [|lia].
    split; [|done]. apply lookup_lt_is_Some_2. lia.
  - intros Hout. destruct (decide (0 <= idx)%Z) as [Hpos|Hneg].
    + rewrite size_t_of_int_small by (unfold INT_MAX; lia).
      destruct (decide _) as [Hin|_]; [lia|done].
    + unfold size_t_of_int.
      assert (idx mod 2 ^ 64 = idx + 2 ^ 64)%Z as ->.
      { symmetry. apply (Z.mod_unique_pos _ _ (-1)); lia. }
      destruct (decide _) as [Hin|_]; [lia|done].
Qed.

Lemma operator_index_unchecked_witness :
  GPUResourceGroup_ctor false two_gpu_map (boot (quiet_host 4))
    = (Normal two_gpu_group, two_gpu_world) /\
  operator_index two_gpu_group 2 = None /\
  operator_index two_gpu_group (-1) = None /\
  is_Some (operator_index two_gpu_group 1).
Proof.
  split; [exact two_gpu_run|].
  assert (Z.of_nat (size two_gpu_group) <= PTRDIFF_MAX)%Z as Hmax by by vm_compute.
  assert (forall idx, (INT_MIN <= idx <= INT_MAX)%Z ->
            ((0 <= idx < Z.of_nat (size two_gpu_group))%Z ->
               is_Some (operator_index two_gpu_group idx) /\
               operator_index two_gpu_group idx
               = gpu_resources_ two_gpu_group !! Z.to_nat idx) /\
            (~ (0 <= idx < Z.of_nat (size two_gpu_group))%Z ->
               operator_index two_gpu_group idx = None)) as H.
  { intros idx.
    exact (operator_index_unchecked false two_gpu_map (boot (quiet_host 4))
             two_gpu_group two_gpu_world idx two_gpu_run Hmax). }
  assert (Z.of_nat (size two_gpu_group) = 2%Z) as Hsz by reflexivity.
  split; [|split].
  - apply (H 2%Z); [by vm_compute|]. rewrite Hsz. lia.
  - apply (H (-1)%Z); [by vm_compute|]. lia.
  - apply (H 1%Z); [by vm_compute|]. rewrite Hsz. lia.
Defined.

(** * Further properties *)

(** ** Calls up to the first failure *)

(** What [until_first_failure] computes: an initial part of the calls, in
    which every call but a failing last one reported no error; all the
    calls when none reported an error. *)
Lemma until_first_failure_spec h calls : forall hist made err,
  until_first_failure h hist calls = (made, err) ->
  made `prefix_of` calls /\
  (forall before c after, made = before ++ c :: after -> after <> [] \/ err = None ->
     fails h (hist ++ map call before) c = false) /\
  (forall c, err = Some c ->
     exists before, made = before ++ [c] /\ fails h (hist ++ map call before) c = true) /\
  (err = None -> made = calls).
Proof.
  induction calls as [|c0 calls IH]; intros hist made err H; simpl in H.
  - injection H as <- <-. split; [done|]. split; [|split; [done|done]].
    intros before c after Hm. by destruct before.
  - destruct (fails h hist c0) eqn:Hf.
    + injection H as <- <-. split; [by exists calls|]. split; [|split; [|done]].
      * intros before c after Hm [Hne|Hnone]; [|done].
        destruct before as [|c1 before]; [|by destruct before].
        injection Hm as <- <-. done.
      * intros c [= <-]. exists []. simpl. by rewrite app_nil_r.
    + destruct (until_first_failure h (hist ++ [call c0]) calls) as [m e] eqn:Hrec.
      injection H as <- <-. destruct (IH _ _ _ Hrec) as (Hp & Hbefore & Hlast & Hall).
      split; [by apply prefix_cons|]. split; [|split].
      * intros before c after Hm Hafter. destruct before as [|c1 before]; simpl in Hm.
        -- injection Hm as <- <-. simpl. by rewrite app_nil_r.
        -- injection Hm as <- ->. simpl. rewrite cons_middle, app_assoc.
           by eapply Hbefore.
      * intros c He. destruct (Hlast c He) as (before & -> & Hfc).
        exists (c0 :: before). split; [done|]. simpl.
        by rewrite cons_middle, app_assoc.
      * intros He. by rewrite (Hall He).
Qed.

Lemma until_first_failure_app h l1 l2 : forall hist,
  until_first_failure h hist l1 = (l1, None) ->
  until_first_failure h hist (l1 ++ l2)
  = let (made, err) := until_first_failure h (hist ++ map call l1) l2 in
    (l1 ++ made, err).
Proof.
  induction l1 as [|c l1 IH]; intros hist H; simpl in *.
  - rewrite app_nil_r. by destruct (until_first_failure h hist l2).
  - destruct (fails h hist c); [done|].
    destruct (until_first_failure h (hist ++ [call c]) l1) as [m e] eqn:E.
    injection H as -> ->. rewrite (IH _ E), <- app_assoc. simpl.
    by destruct (until_first_failure _ _ l2).
Qed.

Lemma until_first_failure_snoc h hist l c :
  until_first_failure h hist l = (l, None) ->
  until_first_failure h hist (l ++ [c])
  = (l ++ [c], if fails h (hist ++ map call l) c then Some c else None).
Proof.
  intros H. rewrite (until_first_failure_app _ _ _ _ H). simpl.
  by destruct (fails _ _ _).
Qed.

Lemma until_first_failure_stop h hist l c rest :
  until_first_failure h hist l = (l, None) ->
  fails h (hist ++ map call l) c = true ->
  until_first_failure h hist (l ++ c :: rest) = (l ++ [c], Some c).
Proof.
  intros H Hf. rewrite (until_first_failure_app _ _ _ _ H). simpl. by rewrite Hf.
Qed.

(** ** [GPUResource]: acquisition and release *)

(** Tries the prefixes of [calls] as the calls made on a branch. *)
Ltac made_prefix calls tac :=
  first [ exists (take 0 calls); tac | exists (take 1 calls); tac
        | exists (take 2 calls); tac | exists (take 3 calls); tac
        | exists (take 4 calls); tac | exists (take 5 calls); tac
        | exists (take 6 calls); tac ].

Lemma GPUResource_ctor_trace dev p w :
  match GPUResource_ctor dev p w with
  | (o, w') =>
      exists made, made `prefix_of` creation_calls /\
        trace w' = trace w ++ in_device_context dev made /\
        match o with
        | Normal r => made = creation_calls /\ device_id_ r = dev /\ comm_ r = p
        | Thrown e =>
            exists c, last made = Some c /\ e = ck_native c /\
              exists hist, fails (host w) hist c = true
        | Undefined => False
        end
  end.
Proof.
  unfold GPUResource_ctor, CudaDeviceContext, scoped, create.
  split_checked;
    made_prefix creation_calls
      ltac:(solve [split;
                   [eexists; reflexivity
                   |split;
                    [unfold in_device_context; simpl; by rewrite <- ?app_assoc
                    |first [done
                           |eexists; split; [reflexivity|];
                            split; [reflexivity|]; eexists; eassumption]]]]).
Qed.

(** Rewrites with the answers the host gave on a branch. *)
Ltac host_answers :=
  repeat match goal with
         | H : fails _ _ _ = _ |- _ => simpl in H; rewrite H; clear H
         end.



Lemma GPUResource_teardown_trace this w :
  match GPUResource_teardown this w with
  | (o, w') =>
      exists made, made `prefix_of` destroy_calls this /\
        trace w' = trace w ++ in_device_context (device_id_ this) made /\
        match o with
        | Normal _ => made = destroy_calls this
        | Thrown e =>
            exists c, last made = Some c /\ e = ck_native c /\
              exists hist, fails (host w) hist c = true
        | Undefined => False
        end
  end.
Proof.
  unfold GPUResource_teardown, CudaDeviceContext, scoped.
  split_checked;
    try match goal with
        | |- context [checked ?c ?w] =>
            let Hf := fresh "Hf" in destruct (checked_run c w) as [[-> Hf]|[-> Hf]]
        end;
    made_prefix (destroy_calls this)
      ltac:(solve [split;
                   [eexists; reflexivity
                   |split;
                    [unfold in_device_context; simpl; by rewrite <- ?app_assoc
                    |first [done
                           |eexists; split; [reflexivity|];
                            split; [reflexivity|]; eexists; eassumption]]]]).
Qed.

Lemma GPUResource_teardown_first_failure this w :
  match until_first_failure (host w)
          (trace w ++ [call (CudaDeviceContext_enter (device_id_ this))])
          (destroy_calls this) with
  | (made, err) =>
      GPUResource_teardown this w
      = (ended_by err, logs (in_device_context (device_id_ this) made) w)
  end.
Proof.
  unfold GPUResource_teardown, CudaDeviceContext, scoped, destroy_calls.
  split_checked;
    try match goal with
        | |- context [checked ?c ?w] =>
            let Hf := fresh "Hf" in destruct (checked_run c w) as [[-> Hf]|[-> Hf]]
        end;
    cbn [until_first_failure]; host_answers;
    unfold ended_by, in_device_context, log, logs; simpl; by rewrite <- ?app_assoc.
Qed.

(** X2.  [~GPUResource] enters the device context and releases in the order
    cuBLAS handle, cuRAND generator, cuDNN handle, compute stream, data-copy
    stream 0, data-copy stream 1, up to and including the first release
    that reports an error: the calls it makes are those of
    [until_first_failure], so the handles after a failing release are not
    released.  It leaves the device context on every path, always returns,
    and after a failure its last action is the line for that error on
    [std::cerr]. *)
Theorem resource_release_stops_at_failure r w :
  match until_first_failure (host w)
          (trace w ++ [call (CudaDeviceContext_enter (device_id_ r))])
          (destroy_calls r) with
  | (made, err) =>
      (GPUResource_teardown r w).1 = ended_by err /\
      (GPUResource_dtor r w).1 = Normal tt /\
      events_of (GPUResource_dtor r) w
      = in_device_context (device_id_ r) made
          ++ match err with
             | Some c => [cerr (ck_native c)]
             | None => []
             end
  end.
Proof.
  pose proof (GPUResource_teardown_first_failure r w) as H.
  destruct (until_first_failure _ _ _) as [made err].
  unfold GPUResource_dtor, try_catch, report, events_of. rewrite H.
  destruct err as [c|]; simpl; (split; [done|]; split; [done|]).
  - by rewrite <- app_assoc, drop_app_length.
  - by rewrite app_nil_r, drop_app_length.
Qed.

(** ** The constructor of the group *)

(** X3.  Every group the constructor returns is non-empty: [empty()] is
    false and [size()] is at least 1.  Its worker pool and its vector of
    futures have one slot per local accelerator, its communicator array is
    allocated, and its device list is the device map's. *)
Theorem constructed_group_is_populated mpi device_map w g w' :
  GPUResourceGroup_ctor mpi device_map w = (Normal g, w') ->
  empty g = false /\
  1 <= size g /\
  train_thread_pool g = size g /\
  results g = size g /\
  comms_ g <> nullptr /\
  get_device_list g = dm_device_list device_map.
Proof.
  intros Hctor. pose proof (GPUResourceGroup_ctor_run mpi device_map w) as Hrun.
  rewrite Hctor in Hrun. destruct Hrun as (Hv & Hg & _).
  assert (1 <= length (dm_device_list device_map)) as Hn.
  { unfold validate_outcome in Hv.
    destruct (dm_device_list device_map); [done|simpl; lia]. }
  rewrite Hg. unfold empty, size, get_device_list. simpl.
  split; [apply Nat.eqb_neq; lia|]. by repeat split.
Qed.

Lemma constructed_group_is_populated_witness :
  GPUResourceGroup_ctor false two_gpu_map (boot (quiet_host 4))
    = (Normal two_gpu_group, two_gpu_world) /\
  empty two_gpu_group = false /\
  1 <= size two_gpu_group /\
  train_thread_pool two_gpu_group = size two_gpu_group /\
  results two_gpu_group = size two_gpu_group /\
  comms_ two_gpu_group <> nullptr /\
  get_device_list two_gpu_group = dm_device_list two_gpu_map.
Proof.
  split; [exact two_gpu_run|].
  exact (constructed_group_is_populated false two_gpu_map (boot (quiet_host 4))
           two_gpu_group two_gpu_world two_gpu_run).
Defined.

Lemma validate_outcome_Thrown visible device_map :
  (exists e, validate_outcome visible device_map = Thrown e)
  <-> dm_device_list device_map = []
      \/ exists dev, dev ∈ dm_device_list device_map /\ (dev >= visible)%Z.
Proof.
  unfold validate_outcome. destruct (dm_device_list device_map) as [|d l] eqn:Hl.
  { simpl. split; [by left|]. intros _. by eexists. }
  simpl Nat.eqb. cbv iota.
  destruct (first_invalid visible (d :: l)) as [bad|] eqn:Hf.
  - split; [|intros _; by eexists]. intros _. right.
    destruct (first_invalid_Some _ _ _ Hf) as (Hin & Hge & _). by exists bad.
  - split; [by intros [e ?]|]. intros [?|(dev & Hin & Hge)]; [done|].
    destruct (first_invalid_exists _ _ _ Hin Hge) as [bad Hbad]. congruence.
Qed.

Lemma validate_outcome_ck_throw visible device_map e :
  validate_outcome visible device_map = Thrown e -> exists code msg, e = ck_throw code msg.
Proof.
  unfold validate_outcome. destruct (_ =? _); [intros [= <-]; by eexists _, _|].
  destruct (first_invalid _ _); [|done]. intros [= <-]. by eexists _, _.
Qed.

(** X4.  The constructor ends with a [CK_THROW_] error exactly when the
    device list is empty or holds an identifier that is not below the
    number of visible accelerators; nothing else about the map is checked
    (identifiers may be negative or repeated).  Whenever it ends with such
    an error it has only created the worker pool, set the affinities and,
    for a non-empty list, asked for the device count: the communicator
    array is not allocated and no library handle exists. *)
Theorem configuration_errors_precede_acquisition mpi device_map w :
  ((exists code msg,
      (GPUResourceGroup_ctor mpi device_map w).1 = Thrown (ck_throw code msg))
   <-> dm_device_list device_map = []
       \/ exists dev, dev ∈ dm_device_list device_map
                      /\ (dev >= visible_devices (host w))%Z) /\
  (forall code msg,
     (GPUResourceGroup_ctor mpi device_map w).1 = Thrown (ck_throw code msg) ->
     (GPUResourceGroup_ctor mpi device_map w).2 = logs (validate_events device_map) w).
Proof.
  pose proof (GPUResourceGroup_ctor_run mpi device_map w) as Hrun.
  rewrite <- validate_outcome_Thrown.
  destruct (GPUResourceGroup_ctor mpi device_map w) as [[g|e|] w']; simpl; [| |done].
  - destruct Hrun as (Hv & _). rewrite Hv. split; [|done].
    split; [by intros (? & ? & ?)|by intros [? ?]].
  - destruct Hrun as [[Hv ->]|[Hv (c & hist & [= ->] & _)]].
    + rewrite Hv. split; [|done]. split; [intros _; by eexists|]. intros _.
      destruct (validate_outcome_ck_throw _ _ _ Hv) as (code & msg & ->).
      by eexists _, _.
    + rewrite Hv. split; [|done]. split; [by intros (? & ? & ?)|by intros [? ?]].
Qed.

Lemma ctor_build_resources_trace device_map comms w :
  match ctor_build_resources device_map (set_comms comms (new_group device_map)) w with
  | (Normal rs, w') =>
      trace w' = trace w
        ++ flat_map (fun dev => in_device_context dev creation_calls)
                    (dm_device_list device_map)
  | _ => True
  end.
Proof.
  unfold ctor_build_resources. simpl gpu_resources_. simpl comms_.
  pose proof (for_loop_inv
    (fun j (_ : list GPUResource) w1 =>
       trace w1 = trace w
         ++ flat_map (fun dev => in_device_context dev creation_calls)
                     (take j (dm_device_list device_map)))
    (fun _ _ => True)
    (fun i gpu_resources =>
       match dm_device_list device_map !! i with
       | Some dev =>
           r <- GPUResource_ctor dev (ptr_add comms i) ;;
           ret (gpu_resources ++ [r])
       | None => undefined
       end) (length (dm_device_list device_map)) 0 [] w) as HL.
  lapply HL; [clear HL; intros HL|by rewrite take_0, app_nil_r].
  lapply HL; [clear HL; intros HL|].
  { destruct (for_loop _ _ _ _ _) as [[rs|e|] w']; [|done..].
    simpl in HL. by rewrite firstn_all in HL. }
  clear HL. intros j rs w1 Hj Ht1.
  destruct (lookup_lt_is_Some_2 (dm_device_list device_map) j) as [dev Hdev]; [lia|].
  rewrite Hdev. unfold bind.
  pose proof (GPUResource_ctor_trace dev (ptr_add comms j) w1) as HR.
  destruct (GPUResource_ctor _ _ _) as [[r|e|] w2]; [|done..].
  destruct HR as (made & _ & Ht2 & -> & _). unfold ret.
  rewrite Ht2, Ht1, (take_S_r _ _ _ Hdev), flat_map_app. simpl.
  by rewrite <- !app_assoc.
Qed.

(** X5.  A construction that returns has made exactly this sequence of
    calls, whatever the host: the worker pool, one affinity call per local
    index, [cudaGetDeviceCount], the bootstrap of the communicators (one
    [ncclCommInitAll] over the whole device list without [ENABLE_MPI], the
    MPI protocol with it), and then, for each local accelerator in list
    order, the six acquisitions of its resource inside its own device
    context. *)
Theorem construction_call_sequence mpi device_map w g w' :
  GPUResourceGroup_ctor mpi device_map w = (Normal g, w') ->
  events_of (GPUResourceGroup_ctor mpi device_map) w
  = validate_events device_map
      ++ map call (bootstrap_calls mpi (host w) (comms_ g) device_map)
      ++ flat_map (fun dev => in_device_context dev creation_calls)
                  (dm_device_list device_map).
Proof.
  intros Hctor. pose proof (GPUResourceGroup_ctor_run mpi device_map w) as Hrun.
  rewrite Hctor in Hrun.
  destruct (constructed_size _ _ _ _ _ Hrun) as (_ & _ & _ & Hcomms).
  destruct Hrun as (_ & _ & _ & w1 & post & Hbuild & Ht1 & _).
  pose proof (ctor_build_resources_trace device_map
                (slot_ptr (length (heap w)) 0) w1) as Ht.
  rewrite Hbuild in Ht. apply events_of_app. rewrite Hctor. cbn [snd].
  by rewrite Ht, Ht1, Hcomms, <- !app_assoc.
Qed.

Lemma construction_call_sequence_witness :
  GPUResourceGroup_ctor false two_gpu_map (boot (quiet_host 4))
    = (Normal two_gpu_group, two_gpu_world) /\
  events_of (GPUResourceGroup_ctor false two_gpu_map) (boot (quiet_host 4))
  = validate_events two_gpu_map
      ++ [call (ncclCommInitAll (slot_ptr 0 0) 2 [0; 1]%Z)]
      ++ in_device_context 0 creation_calls ++ in_device_context 1 creation_calls.
Proof.
  split; [exact two_gpu_run|].
  rewrite (construction_call_sequence false two_gpu_map (boot (quiet_host 4))
             two_gpu_group two_gpu_world two_gpu_run).
  reflexivity.
Defined.

(** ** The bootstrap with [ENABLE_MPI], run by run *)

Lemma join_calls_split comms device_map total nid l j dev :
  l !! j = Some dev ->
  join_calls comms device_map total nid 0 l
  = join_calls comms device_map total nid 0 (take j l)
      ++ cudaSetDevice dev
      :: ncclCommInitRank (ptr_add comms j) total nid (dm_global_id device_map dev)
      :: join_calls comms device_map total nid (S j) (drop (S j) l).
Proof.
  intros Hj. rewrite <- (take_drop_middle l j dev Hj) at 1.
  rewrite join_calls_app. simpl. rewrite length_take, Nat.min_l; [done|].
  apply lookup_lt_Some in Hj. lia.
Qed.

(** The join loop and the closing [ncclGroupEnd]. *)
Lemma join_phase_first_failure b n device_map total nid w :
  n = length (dm_device_list device_map) ->
  block_filled w b n 0 ->
  let joins := join_calls (slot_ptr b 0) device_map total nid 0
                          (dm_device_list device_map) in
  let phase :=
    for_loop n 0 (fun i _ =>
      match dm_device_list device_map !! i with
      | Some dev =>
          checked (cudaSetDevice dev) ;;
          nccl_comm_init_rank (ptr_add (slot_ptr b 0) i) total nid
                              (dm_global_id device_map dev)
      | None => undefined
      end) tt ;;
    checked ncclGroupEnd in
  match until_first_failure (host w) (trace w) (joins ++ [ncclGroupEnd]) with
  | (made, err) =>
      match phase w with
      | (o, w') => o = ended_by err /\ trace w' = trace w ++ map call made
      end
  end.
Proof.
  intros Hn Hb joins phase.
  pose (J := fun j => join_calls (slot_ptr b 0) device_map total nid 0
                        (take j (dm_device_list device_map))).
  pose (I := fun (j : nat) (_ : unit) (w1 : World) =>
    host w1 = host w /\
    trace w1 = trace w ++ map call (J j) /\
    block_filled w1 b n j /\
    until_first_failure (host w) (trace w) (J j) = (J j, None)).
  pose (F := fun (o : Outcome unit) (w' : World) =>
    exists made c rest,
      joins = made ++ c :: rest /\
      until_first_failure (host w) (trace w) made = (made, None) /\
      fails (host w) (trace w ++ map call made) c = true /\
      o = Thrown (ck_native c) /\
      trace w' = trace w ++ map call (made ++ [c])).
  pose proof (for_loop_inv I F
    (fun i _ =>
      match dm_device_list device_map !! i with
      | Some dev =>
          checked (cudaSetDevice dev) ;;
          nccl_comm_init_rank (ptr_add (slot_ptr b 0) i) total nid
                              (dm_global_id device_map dev)
      | None => undefined
      end) n 0 tt w) as HL.
  lapply HL; [clear HL; intros HL|].
  2:{ unfold I, J. simpl. by rewrite app_nil_r. }
  lapply HL; [clear HL; intros HL|].
  - unfold phase, bind at 1.
    destruct (for_loop _ _ _ _ _) as [[[]|e|] w'].
    + destruct HL as (Hh' & Ht' & _ & Hok). unfold J in Ht', Hok. simpl in Ht', Hok.
      rewrite Hn, firstn_all in Ht', Hok. fold joins in Ht', Hok.
      rewrite (until_first_failure_snoc _ _ _ _ Hok).
      destruct (checked_run ncclGroupEnd w') as [[-> Hf]|[-> Hf]];
        rewrite Hh', Ht' in Hf; rewrite Hf; simpl;
        (split; [done|]); by rewrite Ht', map_app, <- app_assoc.
    + destruct HL as (made & c & rest & Hj & Hok & Hf & [= ->] & Ht').
      rewrite Hj, <- app_assoc. simpl.
      by rewrite (until_first_failure_stop _ _ _ _ _ Hok Hf).
    + by destruct HL as (made & c & rest & _ & _ & _ & ? & _).
  - clear HL. intros j [] w1 Hj (Hh1 & Ht1 & Hb1 & Hok1).
    destruct (lookup_lt_is_Some_2 (dm_device_list device_map) j) as [dev Hdev];
      [lia|].
    rewrite Hdev. unfold nccl_comm_init_rank.
    pose proof (join_calls_split (slot_ptr b 0) device_map total nid _ _ _ Hdev)
      as Hsplit. fold joins in Hsplit. fold (J j) in Hsplit.
    destruct (fails (host w1) (trace w1) (cudaSetDevice dev)) eqn:Hf1.
    { rewrite (bind_checked_fail _ _ _ Hf1). rewrite Hh1, Ht1 in Hf1.
      eexists (J j), (cudaSetDevice dev), _. split; [exact Hsplit|].
      split; [done|]. split; [done|]. split; [done|].
      simpl. by rewrite Ht1, map_app, <- app_assoc. }
    rewrite (bind_checked_ok _ _ _ Hf1). cbv beta. rewrite Hh1, Ht1 in Hf1.
    pose proof (until_first_failure_snoc _ _ _ (cudaSetDevice dev) Hok1) as Hok2.
    rewrite Hf1 in Hok2.
    match goal with
    | |- context [bind (checked ?c) ?k ?w2] =>
        destruct (fails (host w2) (trace w2) c) eqn:Hf2;
        [rewrite (bind_checked_fail c k w2 Hf2)|rewrite (bind_checked_ok c k w2 Hf2)]
    end; simpl in Hf2; rewrite Hh1, Ht1 in Hf2.
    { eexists (J j ++ [cudaSetDevice dev]), _, _.
      split; [by rewrite Hsplit, <- app_assoc|].
      split; [done|]. split; [by rewrite map_app, app_assoc|]. split; [done|].
      simpl. by rewrite Ht1, !map_app, <- !app_assoc. }
    change (ptr_add (slot_ptr b 0) j) with (slot_ptr b j).
    destruct (init_comm_run (log (call (ncclCommInitRank (slot_ptr b j)
                total nid (dm_global_id device_map dev)))
                (log (call (cudaSetDevice dev)) w1)) b n j)
      as (w2 & Hrun & Hh2 & Ht2 & Hb2); [done|lia|].
    rewrite Hrun. unfold I. simpl in Hh2, Ht2.
    assert (J (S j) = (J j ++ [cudaSetDevice dev])
                        ++ [ncclCommInitRank (slot_ptr b j) total nid
                              (dm_global_id device_map dev)]) as HJ.
    { unfold J. rewrite (join_calls_take_S _ _ _ _ _ _ _ Hdev).
      by rewrite <- app_assoc. }
    split; [congruence|]. split; [|split; [done|]].
    + rewrite Ht2, Ht1, HJ, !map_app. simpl. by rewrite <- !app_assoc.
    + rewrite HJ, (until_first_failure_snoc _ _ _ _ Hok2).
      rewrite map_app, app_assoc.
      change (map call [cudaSetDevice dev]) with [call (cudaSetDevice dev)].
      by rewrite Hf2.
Qed.

Lemma bootstrap_mpi_first_failure b device_map total w :
  block_filled w b (length (dm_device_list device_map)) 0 ->
  match until_first_failure (host w) (trace w)
          (mpi_bootstrap_calls (host w) (slot_ptr b 0) device_map total) with
  | (made, err) =>
      match bootstrap_mpi (slot_ptr b 0) device_map total w with
      | (o, w') => o = ended_by err /\ trace w' = trace w ++ map call made
      end
  end.
Proof.
  intros Hb. unfold bootstrap_mpi, mpi_bcast.
  pose proof (join_phase_first_failure b (length (dm_device_list device_map))
                device_map total (agreed_id (host w))) as HJ.
  unfold mpi_bootstrap_calls, mpi_prologue, sent_id, agreed_id in *.
  destruct (mpi_rank (host w) =? 0)%Z eqn:Hr;
    repeat first
      [ rewrite bind_bind | rewrite bind_ret | rewrite bind_ask
      | progress simpl host | rewrite Hr; cbv iota
      | match goal with
        | |- context [bind (checked ?c) ?k ?w1] =>
            let Hf := fresh "Hf" in
            destruct (fails (host w1) (trace w1) c) eqn:Hf;
            [rewrite (bind_checked_fail c k w1 Hf)
            |rewrite (bind_checked_ok c k w1 Hf)]
        end ];
    cbn [until_first_failure app];
    try (solve [host_answers; split; [done|simpl; by rewrite <- ?app_assoc]]);
    match goal with
    | |- context [bind (for_loop _ _ _ _) _ ?w1] =>
        specialize (HJ w1 eq_refl Hb); cbv zeta in HJ; simpl host in HJ;
        simpl trace in HJ
    end;
    host_answers;
    destruct (until_first_failure _ _ (_ ++ [ncclGroupEnd])) as [made err];
    match goal with
    | |- context [bind (for_loop ?n ?i ?body ?s) ?k ?w1] =>
        destruct (bind (for_loop n i body s) k w1) as [o w']
    end;
    destruct HJ as [Ho Ht]; (split; [exact Ho|]);
    rewrite Ht; simpl; by rewrite <- ?app_assoc.
Qed.

(** X6.  The [ENABLE_MPI] bootstrap makes the calls of the protocol (rank
    and size queries, [ncclGetUniqueId] on rank 0, [MPI_Bcast],
    [ncclGroupStart], the joins, [ncclGroupEnd]) up to and including the
    first one that reports an error, and no call after it: on every run over
    an allocated communicator array the calls made are those of
    [until_first_failure].  It throws the error of that call, and returns
    when no call reported one.  So a failing [ncclGetUniqueId] on rank 0 is
    never followed by the broadcast, and a failing join leaves the group
    opened by [ncclGroupStart] unclosed.  This holds whatever the name
    [total_gpu_count] stands for. *)
Theorem mpi_bootstrap_stops_at_failure b device_map total w :
  block_filled w b (length (dm_device_list device_map)) 0 ->
  match until_first_failure (host w) (trace w)
          (mpi_bootstrap_calls (host w) (slot_ptr b 0) device_map total) with
  | (made, err) =>
      (bootstrap_mpi (slot_ptr b 0) device_map total w).1 = ended_by err /\
      events_of (bootstrap_mpi (slot_ptr b 0) device_map total) w = map call made
  end.
Proof.
  intros Hb. pose proof (bootstrap_mpi_first_failure b device_map total w Hb) as H.
  destruct (until_first_failure _ _ _) as [made err]. unfold events_of.
  destruct (bootstrap_mpi _ _ _ _) as [o w'].
  destruct H as [Ho Ht]. split; [done|]. simpl. by rewrite Ht, drop_app_length.
Qed.

(** Rank 0 of a job on which [ncclGetUniqueId] reports an error: the
    broadcast is never reached. *)
Lemma mpi_bootstrap_stops_at_failure_witness :
  block_filled no_unique_id_world 0 1 0 /\
  (bootstrap_mpi (slot_ptr 0 0) rank1_map 2 no_unique_id_world).1
  = Thrown (ck_native ncclGetUniqueId) /\
  events_of (bootstrap_mpi (slot_ptr 0 0) rank1_map 2) no_unique_id_world
  = map call [MPI_Comm_rank; MPI_Comm_size; ncclGetUniqueId].
Proof.
  assert (block_filled no_unique_id_world 0 1 0) as Hb
    by exact (new_comm_array_filled 1 (boot no_unique_id_host)).
  split; [exact Hb|].
  exact (mpi_bootstrap_stops_at_failure 0 rank1_map 2 no_unique_id_world Hb).
Defined.

(** ** What the constructor never does *)

Lemma emits_unit {A} (P : Event -> Prop) (m : M A) :
  (forall w, trace (m w).2 = trace w) -> emits P m.
Proof. intros H w. exists []. by rewrite H, app_nil_r. Qed.

Lemma emits_ret {A} P (a : A) : emits P (ret a).
Proof. by apply emits_unit. Qed.

Lemma emits_throw {A} P e : emits P (@throw A e).
Proof. by apply emits_unit. Qed.

Lemma emits_undefined {A} P : emits P (@undefined A).
Proof. by apply emits_unit. Qed.

Lemma emits_ask {A} P (f : Host -> A) : emits P (ask f).
Proof. by apply emits_unit. Qed.

Lemma emits_fresh P : emits P fresh.
Proof. by apply emits_unit. Qed.

Lemma emits_new_comm_array P n : emits P (new_comm_array n).
Proof. by apply emits_unit. Qed.

Lemma emits_store P p c : emits P (store p c).
Proof.
  apply emits_unit. intros w. unfold store. destruct p as [|b o]; [done|].
  destruct (heap w !! b); [|done]. by destruct (decide _).
Qed.

Lemma emits_emit (P : Event -> Prop) c : P (call c) -> emits P (emit c).
Proof. intros Hc w. exists [call c]. split; [done|]. by constructor. Qed.

Lemma emits_checked (P : Event -> Prop) c : P (call c) -> emits P (checked c).
Proof.
  intros Hc w. exists [call c]. split; [|by constructor].
  by destruct (checked_run c w) as [[-> _]|[-> _]].
Qed.

Lemma emits_bind {A B} P (m : M A) (f : A -> M B) :
  emits P m -> (forall a, emits P (f a)) -> emits P (bind m f).
Proof.
  intros Hm Hf w. destruct (Hm w) as (evs1 & Ht1 & He1). unfold bind.
  destruct (m w) as [[a|e|] w1]; simpl in *; [|by exists evs1..].
  destruct (Hf a w1) as (evs2 & Ht2 & He2).
  exists (evs1 ++ evs2). rewrite Ht2, Ht1, app_assoc. split; [done|].
  by apply Forall_app.
Qed.

Lemma emits_when P b m : emits P m -> emits P (when b m).
Proof. intros Hm. destruct b; [done|apply emits_ret]. Qed.

Lemma emits_for_loop {St} P (body : nat -> St -> M St) count :
  (forall i s, emits P (body i s)) -> forall i s, emits P (for_loop count i body s).
Proof.
  intros Hbody. induction count as [|k IH]; intros i s; simpl.
  - apply emits_ret.
  - apply emits_bind; [apply Hbody|]. intros s'. apply IH.
Qed.

Lemma emits_for_each {A} P (body : A -> M unit) l :
  (forall x, emits P (body x)) -> emits P (for_each l body).
Proof.
  intros Hbody. induction l as [|x l IH]; simpl; [apply emits_ret|].
  apply emits_bind; [apply Hbody|]. by intros _.
Qed.

Lemma emits_scoped {A} (P : Event -> Prop) (m : M A) ev :
  emits P m -> P ev -> emits P (scoped m (log ev)).
Proof.
  intros Hm Hev w. destruct (Hm w) as (evs & Ht & He). unfold scoped.
  destruct (m w) as [o w1]. simpl in *. exists (evs ++ [ev]).
  rewrite Ht, app_assoc. split; [done|]. apply Forall_app. split; [done|by constructor].
Qed.

Lemma emits_for_loop_upto {St} P (body : nat -> St -> M St) count :
  (forall i s, emits P (body i s)) ->
  forall i s, emits P (for_loop_upto count i body s).
Proof.
  intros Hbody. induction count as [|k IH]; intros i s; simpl.
  - apply emits_ret.
  - intros w. destruct (Hbody i s w) as (evs1 & Ht1 & He1).
    destruct (body i s w) as [[s'|e|] w1]; simpl in *; [|by exists evs1..].
    destruct (IH (S i) s' w1) as (evs2 & Ht2 & He2).
    exists (evs1 ++ evs2). rewrite Ht2, Ht1, app_assoc. split; [done|].
    by apply Forall_app.
Qed.

Lemma emits_on_exception {A} P (m : M A) cleanup :
  emits P m -> emits P cleanup -> emits P (on_exception m cleanup).
Proof.
  intros Hm Hc w. destruct (Hm w) as (evs1 & Ht1 & He1). unfold on_exception.
  destruct (m w) as [[a|e|] w1]; simpl in *; [by exists evs1| |by exists evs1].
  destruct (Hc w1) as (evs2 & Ht2 & He2).
  exists (evs1 ++ evs2). split; [|by apply Forall_app].
  destruct (cleanup w1) as [[[]|e'|] w2]; simpl in *; by rewrite Ht2, Ht1, app_assoc.
Qed.

Lemma emits_try_catch P m h :
  emits P m -> (forall e, emits P (h e)) -> emits P (try_catch m h).
Proof.
  intros Hm Hh w. destruct (Hm w) as (evs1 & Ht1 & He1). unfold try_catch.
  destruct (m w) as [[[]|e|] w1]; simpl in *; [by exists evs1| |by exists evs1].
  destruct (Hh e w1) as (evs2 & Ht2 & He2).
  exists (evs1 ++ evs2). rewrite Ht2, Ht1, app_assoc. split; [done|].
  by apply Forall_app.
Qed.

Lemma emits_report (P : Event -> Prop) e : P (cerr e) -> emits P (report e).
Proof. intros He w. exists [cerr e]. split; [done|]. by constructor. Qed.

Lemma emits_delete_comm_array P p : emits P (delete_comm_array p).
Proof. apply emits_unit. intros w. by destruct p. Qed.

Create HintDb emits discriminated.
#[local] Hint Resolve emits_ret emits_throw emits_undefined emits_ask emits_fresh
  emits_new_comm_array emits_store emits_emit emits_checked emits_when
  emits_for_loop emits_for_each emits_scoped : emits.
#[local] Hint Extern 1 (emits _ (bind _ _)) => apply emits_bind; [|intros ?] : emits.
#[local] Hint Extern 1 (keeps_comms _) => reflexivity : emits.
#[local] Hint Extern 2 (emits _ (match ?x with _ => _ end)) => destruct x : emits.

Lemma GPUResource_ctor_keeps_comms dev p : emits keeps_comms (GPUResource_ctor dev p).
Proof.
  unfold GPUResource_ctor, CudaDeviceContext, create. auto 20 with emits.
Qed.

Lemma ctor_validate_keeps_comms device_map this :
  emits keeps_comms (ctor_validate device_map this).
Proof.
  unfold ctor_validate, thread_pool, set_affinity, cuda_get_device_count.
  auto 20 with emits.
Qed.

Lemma ctor_bootstrap_keeps_comms mpi device_map this :
  emits keeps_comms (ctor_bootstrap mpi device_map this).
Proof.
  unfold ctor_bootstrap, bootstrap_mpi, bootstrap_local, mpi_bcast,
    nccl_comm_init_all, nccl_comm_init_rank, init_comm.
  destruct mpi; auto 30 with emits.
Qed.

Lemma GPUResource_dtor_keeps_comms r : emits keeps_comms (GPUResource_dtor r).
Proof.
  unfold GPUResource_dtor, GPUResource_teardown, CudaDeviceContext.
  apply emits_try_catch; [auto 20 with emits|].
  intros e. by apply emits_report.
Qed.

Lemma for_loop_upto_run {St} (body : nat -> St -> M St) count : forall i s w,
  for_loop count i body s w
  = match for_loop_upto count i body s w with
    | (Normal (s', None), w') => (Normal s', w')
    | (Normal (_, Some e), w') => (Thrown e, w')
    | (Thrown e, w') => (Thrown e, w')
    | (Undefined, w') => (Undefined, w')
    end.
Proof.
  induction count as [|k IH]; intros i s w; simpl; [done|].
  unfold bind. destruct (body i s w) as [[s'|e|] w1]; [apply IH|done..].
Qed.

(** Unwinding changes neither whether the constructor returns nor what it
    throws, and a run that returns is the run of the body. *)
Lemma unwinding_keeps_outcome order mpi device_map w :
  (GPUResourceGroup_ctor_unwinding order mpi device_map w).1
  = (GPUResourceGroup_ctor mpi device_map w).1 /\
  forall g w', GPUResourceGroup_ctor mpi device_map w = (Normal g, w') ->
    GPUResourceGroup_ctor_unwinding order mpi device_map w = (Normal g, w').
Proof.
  unfold GPUResourceGroup_ctor_unwinding, GPUResourceGroup_ctor, ctor_build_resources,
    on_exception, bind.
  destruct (ctor_validate _ _ w) as [[[]|e|] w0]; [|done..].
  destruct (new_comm_array _ w0) as [[comms|e|] w1]; [|done..].
  destruct (ctor_bootstrap _ _ _ w1) as [[[]|e|] w2]; [| |done].
  2:{ by destruct (delete_comm_array_run comms w2) as (w3 & -> & _). }
  pose proof (for_loop_upto_run (St:=list GPUResource)) as Hloop.
  unfold bind in Hloop. rewrite Hloop. clear Hloop.
  destruct (for_loop_upto _ _ _ _ w2) as [[[rs [e|]]|e|] w3];
    [|by unfold ret|by destruct (delete_comm_array_run comms w3) as (w4 & -> & _)|done].
  destruct (release_resources_run (order rs) w3) as (w4 & -> & _). unfold throw.
  by destruct (delete_comm_array_run comms w4) as (w5 & -> & _).
Qed.

(** X7.  On no run, returning or throwing, does the construction of a
    group call [ncclCommDestroy], the stack unwinding that follows an
    exception included: when the constructor throws after the bootstrap (a
    resource could not be acquired), unwinding releases the handles of the
    resources built by then, in whatever order the vector reaches them, and
    frees the array, but the communicators that were initialised are never
    torn down. *)
Theorem constructor_never_destroys_comms order mpi device_map w :
  comm_destroys (events_of (GPUResourceGroup_ctor_unwinding order mpi device_map) w)
  = [].
Proof.
  assert (emits keeps_comms (GPUResourceGroup_ctor_unwinding order mpi device_map)) as H.
  { unfold GPUResourceGroup_ctor_unwinding.
    apply emits_bind; [apply ctor_validate_keeps_comms|]. intros _.
    apply emits_bind; [apply emits_new_comm_array|]. intros comms.
    apply emits_on_exception; [|apply emits_delete_comm_array].
    apply emits_bind; [apply ctor_bootstrap_keeps_comms|]. intros _.
    apply emits_bind.
    - apply emits_for_loop_upto. intros i s.
      destruct (_ !! i); [|apply emits_undefined].
      apply emits_bind; [apply GPUResource_ctor_keeps_comms|]. intros r.
      apply emits_ret.
    - intros [rs [e|]]; [|apply emits_ret].
      apply emits_bind; [|intros _; apply emits_throw].
      apply emits_for_each. apply GPUResource_dtor_keeps_comms. }
  destruct (H w) as (evs & Ht & He).
  rewrite (events_of_app _ _ _ Ht). by apply comm_destroys_none.
Qed.

(** On a host where the second [cudnnCreate] fails, the constructor throws
    while building the second resource: unwinding releases the first
    resource and frees the array, and the two communicators are left as
    they were initialised. *)
Example comms_left_after_failed_construction :
  (GPUResourceGroup_ctor_unwinding (fun rs => rs) false two_gpu_map
     (boot second_cudnn_host)).1
    = Thrown (ck_native cudnnCreate) /\
  drop 5 (events_of (GPUResourceGroup_ctor_unwinding (fun rs => rs) false two_gpu_map)
            (boot second_cudnn_host))
    = in_device_context 0 creation_calls
        ++ in_device_context 1 [cublasCreate;
                                curandCreateGenerator CURAND_RNG_PSEUDO_DEFAULT;
                                cudnnCreate]
        ++ in_device_context 0 [cublasDestroy 2; curandDestroyGenerator 3;
                                cudnnDestroy 4; cudaStreamDestroy 5;
                                cudaStreamDestroy 6; cudaStreamDestroy 7] /\
  heap (GPUResourceGroup_ctor_unwinding (fun rs => rs) false two_gpu_map
          (boot second_cudnn_host)).2
    = [[]].
Proof. by vm_compute. Qed.

(** ** Destroying what was constructed *)

(** X8.  A group of exactly one accelerator gets a communicator like any
    other (the constructor initialises slot 0 of its array), but destroying
    the group never hands that communicator to [ncclCommDestroy]. *)
Theorem single_accelerator_comm_never_destroyed mpi device_map w g w' :
  GPUResourceGroup_ctor mpi device_map w = (Normal g, w') ->
  length (dm_device_list device_map) = 1 ->
  (exists c, comm_slots g w' = [Some c]) /\
  (delete_GPUResourceGroup g w').1 = Normal tt /\
  comm_destroys (events_of (delete_GPUResourceGroup g) w') = [].
Proof.
  intros Hctor Hone. pose proof (GPUResourceGroup_ctor_run mpi device_map w) as Hrun.
  rewrite Hctor in Hrun.
  destruct (constructed_size _ _ _ _ _ Hrun) as (Hsize & Hlen & _ & Hcomms).
  assert (length (gpu_resources_ g) = 1) as Hn by congruence.
  split.
  - destruct Hrun as (_ & _ & _ & w1 & post & _ & _ & (blk & Hb & Hblen & Hfull) &
                      Hheap & _).
    unfold comm_slots. rewrite Hcomms, Hheap, Hb, Hn. simpl. rewrite drop_0.
    destruct (Hfull 0) as [c Hc]; [lia|]. exists c.
    destruct blk as [|c0 [|c1 blk]]; simpl in *; [done| |lia]. congruence.
  - assert (GPUResourceGroup_teardown g w' = (Normal tt, w')) as Hd.
    { unfold GPUResourceGroup_teardown. by rewrite Hn. }
    destruct (destroy_GPUResourceGroup_run g (gpu_resources_ g) w'
                (ctor_allocates_comms _ _ _ _ _ Hctor))
      as (w'' & evs & Hdel & _ & Ht & He).
    rewrite Hd in Ht. simpl in Ht.
    unfold delete_GPUResourceGroup, events_of. rewrite Hdel.
    split; [done|]. simpl. by rewrite Ht, drop_app_length.
Qed.

Lemma one_gpu_run :
  GPUResourceGroup_ctor false one_gpu_map (boot (quiet_host 4))
  = (Normal one_gpu_group, one_gpu_world).
Proof. by vm_compute. Defined.

Lemma single_accelerator_comm_never_destroyed_witness :
  GPUResourceGroup_ctor false one_gpu_map (boot (quiet_host 4))
    = (Normal one_gpu_group, one_gpu_world) /\
  length (dm_device_list one_gpu_map) = 1 /\
  (exists c, comm_slots one_gpu_group one_gpu_world = [Some c]) /\
  (delete_GPUResourceGroup one_gpu_group one_gpu_world).1 = Normal tt /\
  comm_destroys (events_of (delete_GPUResourceGroup one_gpu_group) one_gpu_world) = [].
Proof.
  split; [exact one_gpu_run|]. split; [reflexivity|].
  exact (single_accelerator_comm_never_destroyed false one_gpu_map
           (boot (quiet_host 4)) one_gpu_group one_gpu_world one_gpu_run eq_refl).
Defined.

Lemma release_resources_trace rs : forall w,
  healthy (host w) ->
  exists w', for_each rs GPUResource_dtor w = (Normal tt, w') /\
    trace w' = trace w
      ++ flat_map (fun r => in_device_context (device_id_ r) (destroy_calls r)) rs.
Proof.
  induction rs as [|r rs IH]; intros w Hh; simpl.
  - exists w. by rewrite app_nil_r.
  - destruct (GPUResource_dtor_run r w) as (Hrun & Hhost & _).
    pose proof (GPUResource_teardown_trace r w) as Ht.
    unfold bind. rewrite Hrun.
    destruct (GPUResource_teardown r w) as [[[]|e|] w1];
      destruct Ht as (made & _ & Ht1 & Ho); simpl in *; [| |done].
    + subst made. destruct (IH w1) as (w' & -> & Ht'); [by rewrite Hhost|].
      exists w'. split; [done|]. by rewrite Ht', Ht1, <- app_assoc.
    + destruct Ho as (c & _ & _ & hist & Hf). by rewrite Hh in Hf.
Qed.

(** X9.  On a host whose teardown calls succeed, destroying a group makes
    exactly this sequence of calls: when it holds more than one resource,
    [ncclCommDestroy] on every slot of its communicator array in index
    order; then, for each resource whose last owner the group is
    ([released], in the order in which the vector reaches them) and inside
    that resource's device context, its six releases.  All communicators
    are torn down before the first stream or handle is released, a resource
    that a caller still holds is left alone, and nothing is written to
    [std::cerr]. *)
Theorem teardown_call_sequence g released w :
  comms_allocated g w ->
  healthy (host w) ->
  (destroy_GPUResourceGroup g released w).1 = Normal tt /\
  events_of (destroy_GPUResourceGroup g released) w
  = destroy_events (if 1 <? length (gpu_resources_ g) then comm_slots g w else [])
      ++ flat_map (fun r => in_device_context (device_id_ r) (destroy_calls r))
                  released.
Proof.
  intros Halloc Hh.
  pose proof (GPUResourceGroup_teardown_run g w Halloc) as H.
  unfold destroy_GPUResourceGroup, events_of, bind, GPUResourceGroup_dtor, try_catch.
  destruct (GPUResourceGroup_teardown g w) as [[[]|e|] w1]; [| |done].
  - subst w1.
    destruct (release_resources_trace released
                (logs (destroy_events (if 1 <? length (gpu_resources_ g)
                                       then comm_slots g w else [])) w) Hh)
      as (w' & -> & Ht).
    destruct (delete_comm_array_run (comms_ g) w') as (w'' & -> & _ & Ht').
    split; [done|]. simpl in *. by rewrite Ht', Ht, <- app_assoc, drop_app_length.
  - destruct H as (_ & k & c & _ & _ & _ & Hf). by rewrite Hh in Hf.
Qed.

(** The group of two resources, of which a caller still holds the first:
    both communicators are torn down, then the second resource's handles
    are released. *)
Lemma teardown_call_sequence_witness :
  comms_allocated two_gpu_group two_gpu_world /\
  healthy (host two_gpu_world) /\
  events_of (destroy_GPUResourceGroup two_gpu_group (drop 1 (gpu_resources_ two_gpu_group)))
            two_gpu_world
  = [call (ncclCommDestroy (Some 0)); call (ncclCommDestroy (Some 1))]
      ++ in_device_context 1 [cublasDestroy 8; curandDestroyGenerator 9;
                              cudnnDestroy 10; cudaStreamDestroy 11;
                              cudaStreamDestroy 12; cudaStreamDestroy 13].
Proof.
  split; [exact two_gpu_allocated|]. split; [exact (quiet_host_healthy 4)|].
  exact (proj2 (teardown_call_sequence two_gpu_group
                  (drop 1 (gpu_resources_ two_gpu_group)) two_gpu_world
                  two_gpu_allocated (quiet_host_healthy 4))).
Defined.
